(** * monaco_assets: download, verify, extract and cache the Monaco editor assets

    A shallow embedding of [src/monaco_assets/__init__.py].

    The module is a short script over the file system, the network and three
    library services (hashlib, tarfile, platformdirs).  The embedding keeps the
    control flow of the source and makes the world explicit:

    - the file system is a finite map from absolute paths (lists of
      components) to nodes; paths are resolved lexically, links are leaves
      that are never followed (every link counts as dangling), and the only
      errors are those that follow from the shape of the tree (a missing
      parent, a file where a directory is needed, ...);
    - the network is a function from URLs to responses, and every request
      is appended to a log carried by the world;
    - Python exceptions are values; functions run in a state-and-exception
      monad [M];
    - the hash algorithm, the archive decoder, the presence of the
      [filter] parameter of [TarFile.extract] and the platform cache
      directory are parameters of the development. *)

From Stdlib Require Import ZArith.
From Stdlib.Strings Require Import Byte Ascii.
From stdpp Require Import gmap strings list fin_maps.


(** ** Bytes, paths and exceptions *)

Abbreviation bytes := (list Byte.byte).
Abbreviation path := (list string).

(** [p / name] of pathlib. *)
Definition path_child (p : path) (name : string) : path := p ++ [name].
Infix "//" := path_child (at level 40, left associativity).

(** [p.parent]; the root is its own parent. *)
Definition parent (p : path) : path := removelast p.

(** [str(p)] for an absolute POSIX path. *)
Fixpoint path_str_aux (p : path) : string :=
  match p with
  | [] => ""
  | c :: p' => "/" +:+ c +:+ path_str_aux p'
  end.

Definition path_str (p : path) : string :=
  match p with
  | [] => "/"
  | _ => path_str_aux p
  end.

Inductive exn_class :=
| FileNotFoundError | FileExistsError | NotADirectoryError | IsADirectoryError
| OSError | URLError | ReadError
| AbsolutePathError | OutsideDestinationError | SpecialFileError
| AbsoluteLinkError | LinkOutsideDestinationError
| ValueError | RuntimeError.

(** An exception object: its class, [str(e)] and [e.__cause__]. *)
#[warnings="-register-all"]
Inductive exn := Exception (cls : exn_class) (msg : string) (cause : option exn).

Definition exn_cls (e : exn) : exn_class := let 'Exception c _ _ := e in c.
Definition str (e : exn) : string := let 'Exception _ m _ := e in m.
Definition exn_cause (e : exn) : option exn := let 'Exception _ _ c := e in c.

Global Instance exn_class_eq_dec : EqDecision exn_class.
Proof. solve_decision. Defined.

(** [isinstance(e, OSError)]. *)
Definition is_OSError (c : exn_class) : bool :=
  match c with
  | FileNotFoundError | FileExistsError | NotADirectoryError
  | IsADirectoryError | OSError | URLError => true
  | _ => false
  end.

(** ** The world: file system and network log *)

Inductive special_kind := CharDevice | BlockDevice | Fifo.

Inductive node :=
| File (content : bytes)
| Dir
| Symlink (target : string)
| Special (kind : special_kind).

Record world := World {
  fs : gmap path node;
  requests : list string;
}.

Definition set_fs (w : world) (m : gmap path node) : world :=
  {| fs := m; requests := requests w |}.

Definition log_request (url : string) (w : world) : world :=
  {| fs := fs w; requests := requests w ++ [url] |}.

(** The root directory always exists. *)
Definition node_at (m : gmap path node) (p : path) : option node :=
  match p with
  | [] => Some Dir
  | _ => m !! p
  end.

Definition is_dir (m : gmap path node) (p : path) : bool :=
  match node_at m p with
  | Some Dir => true
  | _ => false
  end.

(** ** The state-and-exception monad *)

Inductive result (A : Type) :=
| Ok (a : A)
| Raise (e : exn).
Arguments Ok {A} a.
Arguments Raise {A} e.

Definition M (A : Type) : Type := world → result A * world.

Definition ret {A} (a : A) : M A := λ w, (Ok a, w).
Definition raise {A} (e : exn) : M A := λ w, (Raise e, w).

Definition bind {A B} (m : M A) (k : A → M B) : M B :=
  λ w, match m w with
       | (Ok a, w') => k a w'
       | (Raise e, w') => (Raise e, w')
       end.

(** [try: body except Exception as e: handler e]. *)
Definition try_except {A} (body : M A) (handler : exn → M A) : M A :=
  λ w, match body w with
       | (Ok a, w') => (Ok a, w')
       | (Raise e, w') => handler e w'
       end.

Declare Scope monad_scope.
Delimit Scope monad_scope with M.
Notation "'let*' x ':=' m 'in' k" := (bind m (λ x, k))
  (at level 10, x name, m at level 100, k at level 200) : monad_scope.
Notation "m ;; k" := (bind m (λ _, k))
  (at level 100, right associativity) : monad_scope.
Open Scope monad_scope.

Definition get_fs : M (gmap path node) := λ w, (Ok (fs w), w).

(** Lift a file-system operation that either fails or yields a new tree. *)
Definition fs_op (op : gmap path node → exn + gmap path node) : M unit :=
  λ w, match op (fs w) with
       | inl e => (Raise e, w)
       | inr m => (Ok tt, set_fs w m)
       end.

Fixpoint forM_ {A} (l : list A) (body : A → M unit) : M unit :=
  match l with
  | [] => ret tt
  | x :: l' => body x ;; forM_ l' body
  end.

(** [try: body except <classes selected by catches> as e: handler e]. *)
Definition try_catch {A} (body : M A) (catches : exn_class → bool)
    (handler : exn → M A) : M A :=
  try_except body (λ e, if catches (exn_cls e) then handler e else raise e).

(** ** File-system primitives (os, pathlib, shutil) *)

Definition os_error (c : exn_class) (what : string) (p : path) : exn :=
  Exception c (what +:+ ": '" +:+ path_str p +:+ "'") None.

(** [os.mkdir(p)]. *)
Definition mkdir_fs (p : path) (m : gmap path node) : exn + gmap path node :=
  match node_at m p with
  | Some _ => inl (os_error FileExistsError "File exists" p)
  | None =>
    match node_at m (parent p) with
    | None => inl (os_error FileNotFoundError "No such file or directory" p)
    | Some Dir => inr (<[p := Dir]> m)
    | Some _ => inl (os_error NotADirectoryError "Not a directory" p)
    end
  end.

Definition os_mkdir (p : path) : M unit := fs_op (mkdir_fs p).

(** [p.exists()] follows links; the model never does, and counts every
    link as dangling. *)
Definition exists_at (m : gmap path node) (p : path) : bool :=
  match node_at m p with
  | Some (Symlink _) | None => false
  | Some _ => true
  end.

Definition Path_exists (p : path) : M bool :=
  let* m := get_fs in ret (exists_at m p).

(** [os.path.lexists(p)]. *)
Definition os_path_lexists (p : path) : M bool :=
  let* m := get_fs in ret (bool_decide (is_Some (node_at m p))).

(** [p.is_dir()]. *)
Definition Path_is_dir (p : path) : M bool :=
  let* m := get_fs in ret (is_dir m p).

(** The entries of directory [p]. *)
Definition children (m : gmap path node) (p : path) : list path :=
  filter (λ q, q ≠ [] ∧ parent q = p) (elements (dom m)).

(** [p.iterdir()], forced by its consumer. *)
Definition Path_iterdir (p : path) : M (list path) :=
  let* m := get_fs in
  match node_at m p with
  | Some Dir => ret (children m p)
  | Some _ => raise (os_error NotADirectoryError "Not a directory" p)
  | None => raise (os_error FileNotFoundError "No such file or directory" p)
  end.

(** [any(xs)] over path objects, which are all truthy. *)
Definition any_path (xs : list path) : bool :=
  match xs with
  | [] => false
  | _ :: _ => true
  end.

(** [p.mkdir(parents=False, exist_ok=exist_ok)]. *)
Definition Path_mkdir_flat (exist_ok : bool) (p : path) : M unit :=
  try_catch (os_mkdir p) is_OSError (λ e,
    if decide (exn_cls e = FileNotFoundError) then raise e
    else
      let* d := Path_is_dir p in
      if negb exist_ok || negb d then raise e else ret tt).

(** [p.mkdir(parents=True, exist_ok=True)], by recursion on the reversed
    path so that the parent is a structural subterm. *)
Fixpoint Path_mkdir_parents_rev (rp : list string) : M unit :=
  let p := rev rp in
  try_catch (os_mkdir p) is_OSError (λ e,
    if decide (exn_cls e = FileNotFoundError) then
      match rp with
      | [] => raise e
      | _ :: rparent =>
        Path_mkdir_parents_rev rparent ;;
        Path_mkdir_flat true p
      end
    else
      let* d := Path_is_dir p in
      if negb d then raise e else ret tt).

Definition Path_mkdir_parents (p : path) : M unit :=
  Path_mkdir_parents_rev (rev p).

(** [open(p, "wb")]: create or truncate. *)
Definition open_wb_fs (p : path) (m : gmap path node) : exn + gmap path node :=
  match node_at m p with
  | Some Dir => inl (os_error IsADirectoryError "Is a directory" p)
  | _ =>
    match node_at m (parent p) with
    | None => inl (os_error FileNotFoundError "No such file or directory" p)
    | Some Dir => inr (<[p := File []]> m)
    | Some _ => inl (os_error NotADirectoryError "Not a directory" p)
    end
  end.

Definition open_wb (p : path) : M unit := fs_op (open_wb_fs p).

(** Writing [data] through the file object opened on [p]. *)
Definition write_fs (p : path) (data : bytes) (m : gmap path node)
    : exn + gmap path node :=
  match m !! p with
  | Some (File _) => inr (<[p := File data]> m)
  | _ => inl (os_error OSError "Bad file descriptor" p)
  end.

Definition file_write (p : path) (data : bytes) : M unit :=
  fs_op (write_fs p data).

(** [open(p, "rb")]: the bytes the file object will deliver. *)
Definition open_rb (p : path) : M bytes :=
  let* m := get_fs in
  match node_at m p with
  | Some (File c) => ret c
  | Some Dir => raise (os_error IsADirectoryError "Is a directory" p)
  | Some (Symlink _) => raise (os_error FileNotFoundError "No such file or directory" p)
  | Some (Special _) => raise (os_error OSError "Not a regular file" p)
  | None => raise (os_error FileNotFoundError "No such file or directory" p)
  end.

(** [p.unlink()]. *)
Definition unlink_fs (p : path) (m : gmap path node) : exn + gmap path node :=
  match node_at m p with
  | None => inl (os_error FileNotFoundError "No such file or directory" p)
  | Some Dir => inl (os_error IsADirectoryError "Is a directory" p)
  | Some _ => inr (delete p m)
  end.

Definition Path_unlink (p : path) : M unit := fs_op (unlink_fs p).

(** The tree without [p] and everything below it. *)
Definition remove_tree (p : path) (m : gmap path node) : gmap path node :=
  filter (λ kv, ¬ p `prefix_of` kv.1) m.

(** [shutil.rmtree(p, ignore_errors=ignore_errors)].  Removing the root
    empties it and then fails on the root itself. *)
Definition shutil_rmtree (p : path) (ignore_errors : bool) : M unit :=
  let swallow (e : exn) : M unit :=
    if ignore_errors then ret tt else raise e in
  let* m := get_fs in
  match node_at m p with
  | Some Dir =>
    fs_op (λ m, inr (remove_tree p m)) ;;
    match p with
    | [] => swallow (os_error OSError "Device or resource busy" p)
    | _ => ret tt
    end
  | Some (Symlink _) =>
    swallow (os_error OSError "Cannot call rmtree on a symbolic link" p)
  | Some _ => swallow (os_error NotADirectoryError "Not a directory" p)
  | None => swallow (os_error FileNotFoundError "No such file or directory" p)
  end.

(** ** Library services taken as parameters *)

(** A [hashlib] hash object: [update] calls are equivalent to one call
    with the concatenation of their arguments. *)
Record HashAlgo := {
  hash_state : Type;
  hash_new : hash_state;
  hash_update : hash_state → bytes → hash_state;
  hash_hexdigest : hash_state → string;
  hash_update_nil : ∀ s, hash_update s [] = s;
  hash_update_app : ∀ s a b,
    hash_update (hash_update s a) b = hash_update s (a ++ b);
}.

(** One-shot hashing: [algo(data).hexdigest()]. *)
Definition hexdigest_of (H : HashAlgo) (data : bytes) : string :=
  hash_hexdigest H (hash_update H (hash_new H) data).

(** An HTTP response: the bytes it delivers, and the error that interrupts
    the transfer after them, if any. *)
Record response := {
  body : bytes;
  fault : option exn;
}.

Inductive tartype :=
| REGTYPE | DIRTYPE | SYMTYPE | CHRTYPE | BLKTYPE | FIFOTYPE.

(** A [tarfile.TarInfo]: the attributes extraction looks at. *)
Record TarInfo := {
  name : string;
  type : tartype;
  linkname : string;
  data : bytes;
}.

Record Env := {
  (** [platformdirs.user_cache_dir(appname, appauthor)]: a directory named
      after the application, never the root *)
  user_cache_dir : string → string → path;
  user_cache_dir_not_root : ∀ appname appauthor,
    user_cache_dir appname appauthor ≠ [];
  (** what [urlopen(url)] meets: an error, or a response *)
  network : string → exn + response;
  (** [hashlib.sha1] *)
  sha1 : HashAlgo;
  (** [tarfile.open(f, "r:gz").getmembers()] on the bytes of [f] *)
  gzip_tar_decode : bytes → exn + list TarInfo;
  (** ["filter" in inspect.signature(tar.extract).parameters] *)
  extract_has_filter : bool;
}.

(** ** Member names (posixpath) *)

Definition isabs (s : string) : bool :=
  match s with
  | String "/" _ => true
  | _ => false
  end.

(** [s.lstrip("/")]. *)
Fixpoint lstrip_slash (s : string) : string :=
  match s with
  | String "/" s' => lstrip_slash s'
  | _ => s
  end.

(** [s.split("/")]. *)
Fixpoint split_slash (s : string) : list string :=
  match s with
  | EmptyString => [""]
  | String c s' =>
    if Ascii.eqb c "/" then "" :: split_slash s'
    else match split_slash s' with
         | [] => [String c ""]
         | x :: xs => String c x :: xs
         end
  end.

Definition norm_step (acc : path) (c : string) : path :=
  if decide (c = "" ∨ c = ".") then acc
  else if decide (c = "..") then removelast acc
  else acc ++ [c].

(** [normpath] of the components [comps] read from directory [base]. *)
Definition normpath (base : path) (comps : list string) : path :=
  fold_left norm_step comps base.

(** [realpath(os.path.join(dest, s))], lexically. *)
Definition os_path_join (dest : path) (s : string) : path :=
  if isabs s then normpath [] (split_slash s)
  else normpath dest (split_slash s).

(** [os.path.dirname] on split components. *)
Definition dirname_comps (s : string) : list string :=
  removelast (split_slash s).

(** ** tarfile: the ["data"] filter and member extraction *)

Definition filter_error (c : exn_class) (member : TarInfo) : exn :=
  Exception c (name member) None.

(** [tarfile.data_filter(member, dest)]: the member to extract, or the
    [FilterError] that rejects it. *)
Definition data_filter (member : TarInfo) (dest : path) : exn + TarInfo :=
  let name' :=
    if isabs (name member) then lstrip_slash (name member)
    else name member in
  if isabs name' then inl (filter_error AbsolutePathError member)
  else
    let target_path := normpath dest (split_slash name') in
    if negb (bool_decide (dest `prefix_of` target_path)) then
      inl (filter_error OutsideDestinationError member)
    else
      let filtered := {| name := name'; type := type member;
                         linkname := linkname member; data := data member |} in
      match type member with
      | REGTYPE | DIRTYPE => inr filtered
      | SYMTYPE =>
        if isabs (linkname member) then
          inl (filter_error AbsoluteLinkError member)
        else
          let link_target :=
            normpath dest (dirname_comps name' ++ split_slash (linkname member)) in
          if negb (bool_decide (dest `prefix_of` link_target)) then
            inl (filter_error LinkOutsideDestinationError member)
          else inr filtered
      | CHRTYPE | BLKTYPE | FIFOTYPE =>
        inl (filter_error SpecialFileError member)
      end.

(** [os.makedirs(p)], by recursion on the reversed path. *)
Fixpoint os_makedirs_rev (rp : list string) : M unit :=
  match rp with
  | [] => os_mkdir []
  | _ :: rhead =>
    (let* ex := Path_exists (rev rhead) in
     if negb ex then
       try_catch (os_makedirs_rev rhead)
         (λ c, bool_decide (c = FileExistsError)) (λ _, ret tt)
     else ret tt) ;;
    os_mkdir (rev rp)
  end.

Definition os_makedirs (p : path) : M unit := os_makedirs_rev (rev p).

(** Creating a leaf that must not exist yet ([os.symlink], [os.mkfifo],
    [os.mknod]). *)
Definition mknode_fs (p : path) (n : node) (m : gmap path node)
    : exn + gmap path node :=
  match node_at m p with
  | Some _ => inl (os_error FileExistsError "File exists" p)
  | None =>
    match node_at m (parent p) with
    | None => inl (os_error FileNotFoundError "No such file or directory" p)
    | Some Dir => inr (<[p := n]> m)
    | Some _ => inl (os_error NotADirectoryError "Not a directory" p)
    end
  end.

(** [TarFile._extract_member(member, targetpath)]. *)
Definition extract_member (member : TarInfo) (targetpath : path) : M unit :=
  let upperdirs := parent targetpath in
  (let* ex := Path_exists upperdirs in
   if negb ex then os_makedirs upperdirs else ret tt) ;;
  match type member with
  | REGTYPE =>
    open_wb targetpath ;;
    file_write targetpath (data member)
  | DIRTYPE =>
    try_catch (os_mkdir targetpath)
      (λ c, bool_decide (c = FileExistsError))
      (λ e, let* d := Path_is_dir targetpath in
            if negb d then raise e else ret tt)
  | SYMTYPE =>
    (let* ex := os_path_lexists targetpath in
     if ex then Path_unlink targetpath else ret tt) ;;
    fs_op (mknode_fs targetpath (Symlink (linkname member)))
  | CHRTYPE => fs_op (mknode_fs targetpath (Special CharDevice))
  | BLKTYPE => fs_op (mknode_fs targetpath (Special BlockDevice))
  | FIFOTYPE => fs_op (mknode_fs targetpath (Special Fifo))
  end.

(** [tar.extract(member, dest, filter=...)]; [None] is the call without the
    parameter, on a library that has none. *)
Definition TarFile_extract (member : TarInfo) (dest : path)
    (filter : option (TarInfo → path → exn + TarInfo)) : M unit :=
  let* tarinfo :=
    match filter with
    | None => ret member
    | Some f =>
      match f member dest with
      | inl e => raise e
      | inr t => ret t
      end
    end in
  extract_member tarinfo (os_path_join dest (name tarinfo)).

(** ** File objects and chunked reads *)

Record file_obj := {
  f_data : bytes;
  f_pos : nat;
}.

(** [f.read(n)]. *)
Definition f_read (n : nat) (f : file_obj) : bytes * file_obj :=
  let chunk := take n (drop (f_pos f) (f_data f)) in
  (chunk, {| f_data := f_data f; f_pos := f_pos f + length chunk |}).

(** ** The module *)

Definition VERSION : string := "0.54.0".
Definition EXPECTED_SHA1 : string := "c0d6ebb46b83f1bef6f67f6aa471e38ba7ef8231".

Section Program.
Context (E : Env).

Definition CACHE_DIR : path := user_cache_dir E "monaco-assets" "monaco-assets".

(** [urllib.request.urlopen(url, context=context)]. *)
Definition urlopen (url : string) : M response :=
  λ w, match network E url with
       | inl e => (Raise e, log_request url w)
       | inr r => (Ok r, log_request url w)
       end.

(** [shutil.copyfileobj(response, out_file)]. *)
Definition copyfileobj (r : response) (filename : path) : M unit :=
  file_write filename (body r) ;;
  match fault r with
  | Some e => raise e
  | None => ret tt
  end.

Definition _download_file (url : string) (filename : path) : M unit :=
  let* r := urlopen url in
  open_wb filename ;;
  copyfileobj r filename.

(** [for chunk in iter(lambda: f.read(4096), b""): sha1_hash.update(chunk)];
    [None] when [fuel] iterations did not reach the end of the file. *)
Fixpoint update_chunks (fuel : nat) (f : file_obj)
    (h : hash_state (sha1 E)) : option (hash_state (sha1 E)) :=
  match fuel with
  | O => None
  | S fuel' =>
    let '(chunk, f') := f_read 4096 f in
    match chunk with
    | [] => Some h
    | _ :: _ => update_chunks fuel' f' (hash_update (sha1 E) h chunk)
    end
  end.

Definition _verify_file_hash (filename : path) (expected_sha1 : string)
    : M bool :=
  let sha1_hash := hash_new (sha1 E) in
  let* content := open_rb filename in
  let f := {| f_data := content; f_pos := 0 |} in
  match update_chunks (S (length content)) f sha1_hash with
  | Some sha1_hash =>
    let actual_sha1 := hash_hexdigest (sha1 E) sha1_hash in
    ret (bool_decide (actual_sha1 = expected_sha1))
  | None => raise (Exception RuntimeError "read loop out of fuel" None)
  end.

(** [tarfile.open(tgz, "r:gz")] followed by [tar.getmembers()]. *)
Definition tarfile_open (tgz : path) : M (list TarInfo) :=
  let* content := open_rb tgz in
  match gzip_tar_decode E content with
  | inl e => raise e
  | inr members => ret members
  end.

Definition _extract_tgz (tgz : path) : M unit :=
  let dest := parent tgz in
  let* tar := tarfile_open tgz in
  let supports_filter := extract_has_filter E in
  forM_ tar (λ member,
    if supports_filter then TarFile_extract member dest (Some data_filter)
    else TarFile_extract member dest None).

Definition assets_dir : path := CACHE_DIR // ("monaco-editor-" +:+ VERSION).
Definition package_dir : path := assets_dir // "package".

(** [package_dir.exists() and any(package_dir.iterdir())]. *)
Definition cache_check : M bool :=
  let* ex := Path_exists package_dir in
  if ex then
    let* entries := Path_iterdir package_dir in
    ret (any_path entries)
  else ret false.

(** The values of [tgz], [url] and [tgz_file] in [get_path]. *)
Definition archive_name : string := "monaco-editor" +:+ "-" +:+ VERSION +:+ ".tgz".
Definition archive_url : string :=
  "https://registry.npmjs.org/" +:+ "monaco-editor" +:+ "/-/" +:+ archive_name.
Definition archive_file : path := assets_dir // archive_name.

(** The body of the [try] block of [get_path]. *)
Definition provision_body : M path :=
  Path_mkdir_parents assets_dir ;;
  let package := "monaco-editor" in
  let tgz := package +:+ "-" +:+ VERSION +:+ ".tgz" in
  let url := "https://registry.npmjs.org/" +:+ package +:+ "/-/" +:+ tgz in
  let tgz_file := assets_dir // tgz in
  _download_file url tgz_file ;;
  let* ok := _verify_file_hash tgz_file EXPECTED_SHA1 in
  (if negb ok then
     raise (Exception ValueError
              ("Hash verification failed for " +:+ path_str tgz_file) None)
   else ret tt) ;;
  _extract_tgz tgz_file ;;
  Path_unlink tgz_file ;;
  ret package_dir.

(** The [except Exception as e] clause of [get_path]. *)
Definition provision_handler (e : exn) : M path :=
  (let* ex := Path_exists assets_dir in
   if ex then shutil_rmtree assets_dir true else ret tt) ;;
  raise (Exception RuntimeError
           ("Failed to download Monaco Editor assets: " +:+ str e)
           (Some e)).

Definition get_path : M path :=
  let* hit := cache_check in
  if hit then ret package_dir
  else try_except provision_body provision_handler.

Definition clear_cache : M unit :=
  let* ex := Path_exists CACHE_DIR in
  if ex then shutil_rmtree CACHE_DIR false else ret tt.

End Program.

(** ** SHA-1 (FIPS 180-4) as a streaming hash object *)

Module SHA1.
Local Open Scope Z_scope.

Definition w32 (x : Z) : Z := x mod 2 ^ 32.
Definition add32 (x y : Z) : Z := w32 (x + y).
Definition rotl (n x : Z) : Z :=
  w32 (Z.lor (Z.shiftl x n) (Z.shiftr x (32 - n))).
Definition not32 (x : Z) : Z := Z.lxor x (2 ^ 32 - 1).

Definition f (t b c d : Z) : Z :=
  if t <? 20 then Z.lor (Z.land b c) (Z.land (not32 b) d)
  else if t <? 40 then Z.lxor (Z.lxor b c) d
  else if t <? 60 then
    Z.lor (Z.lor (Z.land b c) (Z.land b d)) (Z.land c d)
  else Z.lxor (Z.lxor b c) d.

Definition K (t : Z) : Z :=
  if t <? 20 then 0x5A827999
  else if t <? 40 then 0x6ED9EBA1
  else if t <? 60 then 0x8F1BBCDC
  else 0xCA62C1D6.

Definition byte_val (b : Byte.byte) : Z := Z.of_N (Byte.to_N b).

(** Big-endian 32-bit words of a block. *)
Fixpoint words (bs : list Z) : list Z :=
  match bs with
  | b0 :: b1 :: b2 :: b3 :: rest =>
    (Z.shiftl b0 24 + Z.shiftl b1 16 + Z.shiftl b2 8 + b3) :: words rest
  | _ => []
  end.

(** The message schedule, most recent word first. *)
Fixpoint schedule (n : nat) (ws : list Z) : list Z :=
  match n with
  | O => ws
  | S n' =>
    let w := rotl 1 (Z.lxor (Z.lxor (nth 2 ws 0) (nth 7 ws 0))
                            (Z.lxor (nth 13 ws 0) (nth 15 ws 0))) in
    schedule n' (w :: ws)
  end.

Definition regs : Type := Z * Z * Z * Z * Z.

Definition round (st : regs * Z) (w : Z) : regs * Z :=
  let '((a, b, c, d, e), t) := st in
  let temp := add32 (add32 (add32 (add32 (rotl 5 a) (f t b c d)) e) (K t)) w in
  ((temp, a, rotl 30 b, c, d), t + 1).

Definition compress (h : regs) (block : bytes) : regs :=
  let ws := rev (schedule 64 (rev (words (map byte_val block)))) in
  let '((a, b, c, d, e), _) := fold_left round ws (h, 0) in
  let '(h0, h1, h2, h3, h4) := h in
  (add32 h0 a, add32 h1 b, add32 h2 c, add32 h3 d, add32 h4 e).

Record state := {
  H : regs;
  buffer : bytes;
  count : nat;
}.

Definition init : state :=
  {| H := (0x67452301, 0xEFCDAB89, 0x98BADCFE, 0x10325476, 0xC3D2E1F0);
     buffer := []; count := 0 |}.

Definition update_byte (s : state) (b : Byte.byte) : state :=
  let buf := buffer s ++ [b] in
  if (length buf =? 64)%nat then
    {| H := compress (H s) buf; buffer := []; count := S (count s) |}
  else {| H := H s; buffer := buf; count := S (count s) |}.

Definition update (s : state) (bs : bytes) : state :=
  fold_left update_byte bs s.

Definition byte_of_Z (z : Z) : Byte.byte :=
  match Byte.of_N (Z.to_N (z mod 256)) with
  | Some b => b
  | None => Byte.x00
  end.

(** Padding: a 1 bit, zeros up to 56 mod 64, the bit length on 8 bytes. *)
Definition padding (s : state) : bytes :=
  let used := length (buffer s) in
  let zeros := if (used <? 56)%nat then (55 - used)%nat else (119 - used)%nat in
  let bits := 8 * Z.of_nat (count s) in
  Byte.x80 :: repeat Byte.x00 zeros
    ++ map (λ i, byte_of_Z (Z.shiftr bits (8 * i))) [7; 6; 5; 4; 3; 2; 1; 0].

Definition hex_digit (z : Z) : ascii :=
  nth (Z.to_nat z)
    ["0"; "1"; "2"; "3"; "4"; "5"; "6"; "7";
     "8"; "9"; "a"; "b"; "c"; "d"; "e"; "f"]%char "0"%char.

Definition hex_word (x : Z) : string :=
  fold_right (λ i acc, String (hex_digit (Z.shiftr x (4 * i) mod 16)) acc)
    EmptyString [7; 6; 5; 4; 3; 2; 1; 0].

Definition hexdigest (s : state) : string :=
  let '(h0, h1, h2, h3, h4) := H (update s (padding s)) in
  hex_word h0 +:+ hex_word h1 +:+ hex_word h2 +:+ hex_word h3 +:+ hex_word h4.

Lemma update_nil s : update s [] = s.
Proof. reflexivity. Qed.

Lemma update_app s a b : update (update s a) b = update s (a ++ b).
Proof. unfold update. by rewrite fold_left_app. Qed.

Definition algo : HashAlgo :=
  {| hash_state := state; hash_new := init; hash_update := update;
     hash_hexdigest := hexdigest;
     hash_update_nil := update_nil; hash_update_app := update_app |}.
End SHA1.

(** ** What an exception tells its reader *)

(** [sub in s]. *)
Fixpoint contains (sub s : string) : bool :=
  String.prefix sub s ||
  match s with
  | EmptyString => false
  | String _ s' => contains sub s'
  end.

(** [sub] occurs in the message of [e] or of an exception in its cause
    chain. *)
Fixpoint exn_mentions (e : exn) (sub : string) : bool :=
  match e with
  | Exception _ msg cause =>
    contains sub msg ||
    match cause with
    | Some c => exn_mentions c sub
    | None => false
    end
  end.

(** ** Concrete scenarios *)

Module Scenario.
(** A stand-in hash object that only measures its input: data of length
    [good] gets the pinned digest. *)
Definition length_hash (good : nat) : HashAlgo.
Proof.
  refine {| hash_state := nat; hash_new := 0;
            hash_update := λ n bs, n + length bs;
            hash_hexdigest := λ n,
              if decide (n = good) then EXPECTED_SHA1
              else "da39a3ee5e6b4b0d3255bfef95601890afd80709" |}.
  - intros n. simpl. lia.
  - intros n a b. rewrite length_app. lia.
Defined.

Definition linux_cache_dir (appname appauthor : string) : path :=
  ["home"; "user"; ".cache"; appname].

Lemma linux_cache_dir_not_root appname appauthor :
  linux_cache_dir appname appauthor ≠ [].
Proof. done. Qed.

Definition env (algo : HashAlgo) (net : string → exn + response)
    (members : list TarInfo) (has_filter : bool) : Env :=
  {| user_cache_dir := linux_cache_dir;
     user_cache_dir_not_root := linux_cache_dir_not_root;
     network := net;
     sha1 := algo;
     gzip_tar_decode := λ _, inr members;
     extract_has_filter := has_filter |}.

Definition tgz_bytes : bytes := String.list_byte_of_string "tgz".

Definition serve (content : bytes) (url : string) : exn + response :=
  inr {| body := content; fault := None |}.

Definition offline (url : string) : exn + response :=
  inl (Exception URLError "Name or service not known" None).

Definition regular (n : string) (content : string) : TarInfo :=
  {| name := n; type := REGTYPE; linkname := "";
     data := String.list_byte_of_string content |}.

Definition loader_js : TarInfo := regular "package/min/vs/loader.js" "js".
Definition evil : TarInfo := regular "../../evil" "x".

(** A hash-verified archive with Monaco's layout, extracted with the
    filter. *)
Definition good_env : Env := env (length_hash 3) (serve tgz_bytes) [loader_js] true.
(** The real hash function: the served bytes do not match the pin. *)
Definition mismatch_env : Env := env SHA1.algo (serve tgz_bytes) [loader_js] true.
Definition offline_env : Env := env SHA1.algo offline [] true.
Definition traversal_env (has_filter : bool) : Env :=
  env (length_hash 3) (serve tgz_bytes) [loader_js; evil] has_filter.

Definition home : list (path * node) :=
  [(["home"], Dir); (["home"; "user"], Dir)].
Definition cache : path := ["home"; "user"; ".cache"; "monaco-assets"].
Definition assets : path := cache // "monaco-editor-0.54.0".
Definition cache_dirs : list (path * node) :=
  home ++ [(["home"; "user"; ".cache"], Dir); (cache, Dir); (assets, Dir)].

Definition world_of (l : list (path * node)) : world :=
  {| fs := list_to_map l; requests := [] |}.

(** A fresh machine: no cache directory yet. *)
Definition fresh : world := world_of home.
(** The cache is populated. *)
Definition populated : world :=
  world_of (cache_dirs ++
    [(assets // "package", Dir);
     (assets // "package" // "package.json", File (String.list_byte_of_string "{}"))]).
(** [package/] exists but is empty. *)
Definition empty_package : world :=
  world_of (cache_dirs ++ [(assets // "package", Dir)]).
(** [package] is a regular file. *)
Definition package_is_file : world :=
  world_of (cache_dirs ++ [(assets // "package", File [])]).
(** The cache root is a regular file. *)
Definition cache_is_file : world :=
  world_of (home ++ [(["home"; "user"; ".cache"], Dir); (cache, File [])]).
(** A file that takes two reads of 4096 bytes. *)
Definition big : bytes := repeat "a"%byte 4200.
Definition big_file : path := ["tmp"; "big.bin"].
Definition with_big_file : world :=
  world_of [(["tmp"], Dir); (big_file, File big)].
(** The archive has been downloaded into the version directory. *)
Definition downloaded : world :=
  world_of (cache_dirs ++
    [(assets // "monaco-editor-0.54.0.tgz", File tgz_bytes)]).
End Scenario.

(** * Properties *)

(** ** Paths *)

Lemma parent_child p c : parent (p // c) = p.
Proof. apply removelast_last. Qed.

Lemma child_not_root p c : p // c ≠ [].
Proof. unfold path_child. by destruct p. Qed.

Lemma parent_snoc (p : path) : p ≠ [] → ∃ c, p = parent p // c.
Proof.
  intros Hp. destruct (exists_last Hp) as (q & c & ->).
  exists c. unfold parent, path_child. by rewrite removelast_last.
Qed.

Lemma parent_prefix (p : path) : parent p `prefix_of` p.
Proof.
  destruct (decide (p = [])) as [->|Hp]; [done|].
  destruct (parent_snoc p Hp) as [c Hc]. by exists [c].
Qed.

Lemma prefix_child_inv (q p : path) c :
  q `prefix_of` p // c → q = p // c ∨ q `prefix_of` p.
Proof.
  intros [k Hk]. unfold path_child in *.
  destruct (decide (k = [])) as [->|Hne].
  - left. by rewrite app_nil_r in Hk.
  - right. destruct (exists_last Hne) as (k' & x & ->).
    rewrite app_assoc in Hk. apply app_inj_tail in Hk as [-> _].
    by exists k'.
Qed.

Lemma prefix_parent_inv (q p : path) :
  q `prefix_of` p → q = p ∨ q `prefix_of` parent p.
Proof.
  destruct (decide (p = [])) as [->|Hp].
  - intros ->%prefix_nil_inv. by left.
  - destruct (parent_snoc p Hp) as [c Hc]. intros Hq.
    rewrite Hc in Hq. apply prefix_child_inv in Hq as [Hq|Hq]; [|by right].
    left. congruence.
Qed.

Lemma child_not_prefix (p : path) c : ¬ p // c `prefix_of` p.
Proof. apply prefix_snoc_not. Qed.

(** ** Well-formed trees: every node sits in a directory *)

Definition fs_wf (m : gmap path node) : Prop :=
  ∀ p n, m !! p = Some n → p ≠ [] ∧ is_dir m (parent p) = true.

Lemma is_dir_Some m p : is_dir m p = true ↔ node_at m p = Some Dir.
Proof.
  unfold is_dir. destruct (node_at m p) as [[]|]; naive_solver.
Qed.

Lemma node_at_lookup m (p : path) : p ≠ [] → node_at m p = m !! p.
Proof. by destruct p. Qed.


Lemma fs_wf_node_at_parent m p :
  fs_wf m → is_Some (node_at m p) → is_dir m (parent p) = true.
Proof.
  intros Hwf [n Hn]. destruct p as [|c p']; [done|].
  by destruct (Hwf _ _ Hn).
Qed.

(** In a well-formed tree all the ancestors of a node are directories. *)
Lemma fs_wf_ancestors m (q p : path) :
  fs_wf m → is_Some (node_at m p) → q `prefix_of` p → q ≠ p →
  is_dir m q = true.
Proof.
  intros Hwf. revert q. induction p as [|c p IH] using rev_ind; intros q Hp Hq Hne.
  - apply prefix_nil_inv in Hq. congruence.
  - apply (prefix_child_inv q p c) in Hq as [?|Hq]; [done|].
    pose proof (fs_wf_node_at_parent _ _ Hwf Hp) as Hd.
    change (p ++ [c]) with (p // c) in Hd. rewrite parent_child in Hd.
    destruct (decide (q = p)) as [->|Hqp]; [done|].
    apply IH; [|done..]. apply is_dir_Some in Hd. by rewrite Hd.
Qed.

(** ** Relations between the worlds before and after a computation *)

Definition steps {A} (R : relation world) (c : M A) : Prop :=
  ∀ w, R w (c w).2.

Section steps.
Context (R : relation world) `{!PreOrder R}.

Lemma steps_ret {A} (a : A) : steps R (ret a).
Proof. intros w. reflexivity. Qed.

Lemma steps_raise {A} e : steps R (@raise A e).
Proof. intros w. reflexivity. Qed.

Lemma steps_get_fs : steps R get_fs.
Proof. intros w. reflexivity. Qed.

Lemma steps_bind {A B} (m : M A) (k : A → M B) :
  steps R m → (∀ a, steps R (k a)) → steps R (bind m k).
Proof.
  intros Hm Hk w. unfold bind. specialize (Hm w).
  destruct (m w) as [[a|e] w1]; simpl in *; [|done].
  etrans; [done|]. apply Hk.
Qed.

Lemma steps_try_except {A} (body : M A) handler :
  steps R body → (∀ e, steps R (handler e)) → steps R (try_except body handler).
Proof.
  intros Hm Hk w. unfold try_except. specialize (Hm w).
  destruct (body w) as [[a|e] w1]; simpl in *; [done|].
  etrans; [done|]. apply Hk.
Qed.

Lemma steps_try_catch {A} (body : M A) catches handler :
  steps R body → (∀ e, steps R (handler e)) →
  steps R (try_catch body catches handler).
Proof.
  intros Hm Hk. apply steps_try_except; [done|].
  intros e. destruct (catches _); [done|]. apply steps_raise.
Qed.

Lemma steps_fs_op op :
  (∀ w m', op (fs w) = inr m' → R w (set_fs w m')) → steps R (fs_op op).
Proof.
  intros Hop w. unfold fs_op. specialize (Hop w).
  destruct (op (fs w)) as [e|m']; simpl; [reflexivity|]. by apply Hop.
Qed.

Lemma steps_if {A} (b : bool) (c1 c2 : M A) :
  steps R c1 → steps R c2 → steps R (if b then c1 else c2).
Proof. by destruct b. Qed.

Lemma steps_forM_ {A} (l : list A) body :
  (∀ x, x ∈ l → steps R (body x)) → steps R (forM_ l body).
Proof.
  induction l as [|x l IH]; intros Hb; simpl.
  - apply steps_ret.
  - apply steps_bind; [apply Hb; left|].
    intros _. apply IH. intros y Hy. apply Hb. by right.
Qed.

Lemma steps_Path_exists p : steps R (Path_exists p).
Proof. apply steps_bind; [apply steps_get_fs|]. intros; apply steps_ret. Qed.

Lemma steps_os_path_lexists p : steps R (os_path_lexists p).
Proof. apply steps_bind; [apply steps_get_fs|]. intros; apply steps_ret. Qed.

Lemma steps_Path_is_dir p : steps R (Path_is_dir p).
Proof. apply steps_bind; [apply steps_get_fs|]. intros; apply steps_ret. Qed.

Lemma steps_open_rb p : steps R (open_rb p).
Proof.
  apply steps_bind; [apply steps_get_fs|]. intros m.
  destruct (node_at m p) as [[]|]; auto using steps_ret, steps_raise.
Qed.
End steps.

(** No request is sent. *)
Definition net_rel (w w' : world) : Prop := requests w' = requests w.

(** Only paths in [P] are touched. *)
Definition frame_rel (P : path → Prop) (w w' : world) : Prop :=
  ∀ q, ¬ P q → fs w' !! q = fs w !! q.

(** Directories stay directories. *)
Definition dirs_rel (w w' : world) : Prop :=
  ∀ q, is_dir (fs w) q = true → is_dir (fs w') q = true.

(** Well-formedness is kept. *)
Definition wf_rel (w w' : world) : Prop :=
  fs_wf (fs w) → fs_wf (fs w').

Global Instance net_rel_preorder : PreOrder net_rel.
Proof. split; [by intros w|]. intros w1 w2 w3 H1 H2. congruence. Qed.

Global Instance frame_rel_preorder P : PreOrder (frame_rel P).
Proof.
  split.
  - by intros w q.
  - intros w1 w2 w3 H1 H2 q Hq. by rewrite H2, H1.
Qed.

Global Instance dirs_rel_preorder : PreOrder dirs_rel.
Proof. split; [by intros w q|]. intros w1 w2 w3 H1 H2 q Hq. auto. Qed.

Global Instance wf_rel_preorder : PreOrder wf_rel.
Proof. split; [by intros w Hw|]. intros w1 w2 w3 H1 H2 Hq. auto. Qed.

Lemma frame_rel_mono (P Q : path → Prop) w w' :
  (∀ q, P q → Q q) → frame_rel P w w' → frame_rel Q w w'.
Proof. intros HPQ Hf q Hq. apply Hf. auto. Qed.

Lemma steps_frame_mono {A} (P Q : path → Prop) (c : M A) :
  (∀ q, P q → Q q) → steps (frame_rel P) c → steps (frame_rel Q) c.
Proof. intros HPQ Hc w. eapply frame_rel_mono; [done|]. apply Hc. Qed.

(** Extraction-like steps: a bounded footprint, directories and
    well-formedness kept. *)
Definition grow_rel (P : path → Prop) (w w' : world) : Prop :=
  frame_rel P w w' ∧ dirs_rel w w' ∧ wf_rel w w'.

Global Instance grow_rel_preorder P : PreOrder (grow_rel P).
Proof.
  split.
  - intros w. split; [reflexivity|split; reflexivity].
  - intros w1 w2 w3 (?&?&?) (?&?&?).
    split; [by etrans|split; by etrans].
Qed.

Lemma steps_grow_mono {A} (P Q : path → Prop) (c : M A) :
  (∀ q, P q → Q q) → steps (grow_rel P) c → steps (grow_rel Q) c.
Proof.
  intros HPQ Hc w. destruct (Hc w) as (?&?&?).
  split; [by eapply frame_rel_mono|by split].
Qed.

(** ** Single-node updates *)

Lemma insert_dirs m (p q : path) n :
  node_at m p ≠ Some Dir → is_dir m q = true → is_dir (<[p:=n]> m) q = true.
Proof.
  intros Hp Hq. destruct q as [|c q]; [done|].
  apply is_dir_Some in Hq. apply is_dir_Some. simpl in *.
  rewrite lookup_insert_ne; [done|]. by intros ->.
Qed.

Lemma insert_wf m (p : path) n :
  fs_wf m → is_dir m (parent p) = true → node_at m p ≠ Some Dir →
  fs_wf (<[p:=n]> m).
Proof.
  intros Hwf Hpar Hp q x Hq.
  assert (p ≠ []) as Hne by (by intros ->).
  destruct (decide (p = q)) as [<-|Hpq].
  - split; [done|]. by apply insert_dirs.
  - rewrite lookup_insert_ne in Hq by done.
    destruct (Hwf _ _ Hq) as [? ?]. split; [done|]. by apply insert_dirs.
Qed.

Lemma delete_dirs m (p q : path) :
  node_at m p ≠ Some Dir → is_dir m q = true → is_dir (delete p m) q = true.
Proof.
  intros Hp Hq. destruct q as [|c q]; [done|].
  apply is_dir_Some in Hq. apply is_dir_Some. simpl in *.
  rewrite lookup_delete_ne; [done|]. by intros ->.
Qed.

Lemma delete_wf m (p : path) :
  fs_wf m → node_at m p ≠ Some Dir → fs_wf (delete p m).
Proof.
  intros Hwf Hp q x Hq.
  apply lookup_delete_Some in Hq as [Hpq Hq].
  destruct (Hwf _ _ Hq) as [? ?]. split; [done|]. by apply delete_dirs.
Qed.

Lemma grow_insert w (p : path) n (P : path → Prop) :
  P p → is_dir (fs w) (parent p) = true → node_at (fs w) p ≠ Some Dir →
  grow_rel P w (set_fs w (<[p:=n]> (fs w))).
Proof.
  intros HP Hpar Hp. split; [|split]; simpl.
  - intros q Hq. simpl. rewrite lookup_insert_ne; [done|]. by intros ->.
  - intros q Hq. by apply insert_dirs.
  - intros Hwf. by apply insert_wf.
Qed.

Lemma grow_delete w (p : path) (P : path → Prop) :
  P p → node_at (fs w) p ≠ Some Dir →
  grow_rel P w (set_fs w (delete p (fs w))).
Proof.
  intros HP Hp. split; [|split]; simpl.
  - intros q Hq. simpl. rewrite lookup_delete_ne; [done|]. by intros ->.
  - intros q Hq. by apply delete_dirs.
  - intros Hwf. by apply delete_wf.
Qed.

(** ** The primitives as steps *)

Lemma mkdir_fs_inr m p m' :
  mkdir_fs p m = inr m' →
  node_at m p = None ∧ is_dir m (parent p) = true ∧ m' = <[p:=Dir]> m.
Proof.
  unfold mkdir_fs, is_dir. destruct (node_at m p); [done|].
  destruct (node_at m (parent p)) as [[]|]; naive_solver.
Qed.

Lemma mknode_fs_inr m p n m' :
  mknode_fs p n m = inr m' →
  node_at m p = None ∧ is_dir m (parent p) = true ∧ m' = <[p:=n]> m.
Proof.
  unfold mknode_fs, is_dir. destruct (node_at m p); [done|].
  destruct (node_at m (parent p)) as [[]|]; naive_solver.
Qed.

Lemma open_wb_fs_inr m p m' :
  open_wb_fs p m = inr m' →
  node_at m p ≠ Some Dir ∧ is_dir m (parent p) = true ∧ m' = <[p:=File []]> m.
Proof.
  unfold open_wb_fs, is_dir.
  destruct (node_at m p) as [[]|];
    destruct (node_at m (parent p)) as [[]|]; naive_solver.
Qed.

Lemma write_fs_inr m p d m' :
  write_fs p d m = inr m' →
  (∃ c, m !! p = Some (File c)) ∧ m' = <[p:=File d]> m.
Proof. unfold write_fs. destruct (m !! p) as [[]|]; naive_solver. Qed.

Lemma unlink_fs_inr m p m' :
  unlink_fs p m = inr m' →
  is_Some (node_at m p) ∧ node_at m p ≠ Some Dir ∧ m' = delete p m.
Proof. unfold unlink_fs. destruct (node_at m p) as [[]|]; naive_solver. Qed.


Section primitives.
Context (P : path → Prop).

Lemma steps_os_mkdir p : P p → steps (grow_rel P) (os_mkdir p).
Proof.
  intros HP. apply steps_fs_op; [apply _|]. intros w m' Hop.
  apply mkdir_fs_inr in Hop as (Hp & Hpar & ->).
  apply grow_insert; [done..|]. by rewrite Hp.
Qed.

Lemma steps_mknode p n : P p → steps (grow_rel P) (fs_op (mknode_fs p n)).
Proof.
  intros HP. apply steps_fs_op; [apply _|]. intros w m' Hop.
  apply mknode_fs_inr in Hop as (Hp & Hpar & ->).
  apply grow_insert; [done..|]. by rewrite Hp.
Qed.

Lemma steps_open_wb p : P p → steps (grow_rel P) (open_wb p).
Proof.
  intros HP. apply steps_fs_op; [apply _|]. intros w m' Hop.
  apply open_wb_fs_inr in Hop as (Hp & Hpar & ->).
  by apply grow_insert.
Qed.

Lemma steps_file_write p d : P p → steps (grow_rel P) (file_write p d).
Proof.
  intros HP. apply steps_fs_op; [apply _|]. intros w m' Hop.
  apply write_fs_inr in Hop as ([c Hc] & ->).
  split; [|split]; simpl.
  - intros q Hq. simpl. rewrite lookup_insert_ne; [done|]. by intros ->.
  - intros [|x q] Hq; [done|]. apply is_dir_Some in Hq.
    apply is_dir_Some. simpl in *.
    rewrite lookup_insert_ne; [done|]. intros ->. congruence.
  - intros Hwf. destruct (Hwf _ _ Hc) as [Hne Hpar].
    apply insert_wf; [done..|]. rewrite node_at_lookup by done. by rewrite Hc.
Qed.

Lemma steps_Path_unlink p : P p → steps (grow_rel P) (Path_unlink p).
Proof.
  intros HP. apply steps_fs_op; [apply _|]. intros w m' Hop.
  apply unlink_fs_inr in Hop as (_ & Hp & ->). by apply grow_delete.
Qed.
End primitives.

(** ** Composite operations as steps *)

Ltac steps_tac :=
  repeat first
    [ apply steps_ret | apply steps_raise | apply steps_get_fs
    | apply steps_Path_exists | apply steps_Path_is_dir | apply steps_open_rb
    | apply steps_bind | apply steps_try_catch | apply steps_try_except
    | progress intros
    | match goal with |- steps _ (if ?b then _ else _) => destruct b end
    | match goal with |- steps _ (match ?b with _ => _ end) => destruct b end ];
  try apply _.

Lemma steps_Path_mkdir_flat P exist_ok p :
  P p → steps (grow_rel P) (Path_mkdir_flat exist_ok p).
Proof.
  intros HP. unfold Path_mkdir_flat. steps_tac. by apply steps_os_mkdir.
Qed.

Lemma steps_Path_mkdir_parents_rev rp :
  steps (grow_rel (λ q, q `prefix_of` rev rp)) (Path_mkdir_parents_rev rp).
Proof.
  induction rp as [|c rp IH].
  - cbn [Path_mkdir_parents_rev]. steps_tac; by apply steps_os_mkdir.
  - cbn [Path_mkdir_parents_rev]. apply steps_try_catch; [apply _|..].
    + by apply steps_os_mkdir.
    + intros e. destruct (decide _); [|steps_tac].
      apply steps_bind; [apply _|..].
      * eapply steps_grow_mono; [|apply IH]. intros q Hq. simpl.
        etrans; [apply Hq|]. by exists [c].
      * intros _. by apply steps_Path_mkdir_flat.
Qed.

Lemma steps_Path_mkdir_parents p :
  steps (grow_rel (λ q, q `prefix_of` p)) (Path_mkdir_parents p).
Proof.
  unfold Path_mkdir_parents. pose proof (steps_Path_mkdir_parents_rev (rev p)) as H.
  by rewrite rev_involutive in H.
Qed.

Lemma steps_os_makedirs_rev rp :
  steps (grow_rel (λ q, q `prefix_of` rev rp)) (os_makedirs_rev rp).
Proof.
  induction rp as [|c rp IH].
  - simpl. by apply steps_os_mkdir.
  - cbn [os_makedirs_rev]. apply steps_bind; [apply _|..].
    + apply steps_bind; [apply _|apply steps_Path_exists; apply _|].
      intros [|]; simpl; [apply steps_ret; apply _|].
      apply steps_try_catch; [apply _|..]; [|intros; apply steps_ret; apply _].
      eapply steps_grow_mono; [|apply IH]. intros q Hq. simpl.
      etrans; [apply Hq|]. by exists [c].
    + intros _. by apply steps_os_mkdir.
Qed.

Lemma steps_os_makedirs p :
  steps (grow_rel (λ q, q `prefix_of` p)) (os_makedirs p).
Proof.
  unfold os_makedirs. pose proof (steps_os_makedirs_rev (rev p)) as H.
  by rewrite rev_involutive in H.
Qed.

Lemma steps_extract_member member t :
  steps (grow_rel (λ q, q `prefix_of` t)) (extract_member member t).
Proof.
  unfold extract_member. apply steps_bind; [apply _|..].
  - apply steps_bind; [apply _|apply steps_Path_exists; apply _|].
    intros [|]; simpl; [apply steps_ret; apply _|].
    eapply steps_grow_mono; [|apply steps_os_makedirs].
    intros q Hq. simpl in Hq. etrans; [apply Hq|]. apply parent_prefix.
  - intros _. destruct (type member).
    + apply steps_bind; [apply _|by apply steps_open_wb|].
      intros _. by apply steps_file_write.
    + steps_tac. by apply steps_os_mkdir.
    + apply steps_bind; [apply _|..]; [|intros _; by apply steps_mknode].
      apply steps_bind; [apply _|apply steps_os_path_lexists; apply _|].
      intros [|]; [by apply steps_Path_unlink|apply steps_ret; apply _].
    + by apply steps_mknode.
    + by apply steps_mknode.
    + by apply steps_mknode.
Qed.

(** ** File-system operations send no request *)

Lemma steps_net_fs_op op : steps net_rel (fs_op op).
Proof. apply steps_fs_op; [apply _|]. by intros w m' _. Qed.

Ltac net_tac :=
  repeat first
    [ apply steps_net_fs_op | apply steps_ret | apply steps_raise
    | apply steps_get_fs | apply steps_Path_exists | apply steps_Path_is_dir
    | apply steps_os_path_lexists
    | apply steps_open_rb | apply steps_bind | apply steps_try_catch
    | apply steps_try_except | apply steps_if | progress intros
    | match goal with |- steps _ (match ?b with _ => _ end) => destruct b end ];
  try apply _.

Lemma steps_net_mkdir_flat exist_ok p : steps net_rel (Path_mkdir_flat exist_ok p).
Proof. unfold Path_mkdir_flat, os_mkdir. net_tac. Qed.

Lemma steps_net_mkdir_parents p : steps net_rel (Path_mkdir_parents p).
Proof.
  unfold Path_mkdir_parents. induction (rev p) as [|c rp IH];
    cbn [Path_mkdir_parents_rev]; unfold os_mkdir; net_tac;
    first [done | apply steps_net_mkdir_flat].
Qed.

Lemma steps_net_makedirs p : steps net_rel (os_makedirs p).
Proof.
  unfold os_makedirs. induction (rev p) as [|c rp IH];
    cbn [os_makedirs_rev]; unfold os_mkdir; net_tac; done.
Qed.

Lemma steps_net_extract_member member t : steps net_rel (extract_member member t).
Proof.
  unfold extract_member, open_wb, file_write, os_mkdir, Path_unlink.
  apply steps_bind; [apply _|..].
  - apply steps_bind; [apply _|apply steps_Path_exists; apply _|].
    intros [|]; simpl; [apply steps_ret; apply _|apply steps_net_makedirs].
  - intros _. destruct (type member); net_tac.
Qed.

Lemma steps_net_TarFile_extract member dest filter :
  steps net_rel (TarFile_extract member dest filter).
Proof.
  unfold TarFile_extract. apply steps_bind; [apply _|..].
  - destruct filter as [f|]; [destruct (f member dest)|]; net_tac.
  - intros t. apply steps_net_extract_member.
Qed.

Lemma steps_net_rmtree p ignore_errors : steps net_rel (shutil_rmtree p ignore_errors).
Proof.
  unfold shutil_rmtree. apply steps_bind; [apply _|apply steps_get_fs; apply _|].
  intros m. destruct (node_at m p) as [[]|]; destruct ignore_errors, p; net_tac.
Qed.

(** ** Confinement below a destination directory *)

Definition confined_rel (dest : path) (w w' : world) : Prop :=
  fs_wf (fs w) → is_dir (fs w) dest = true →
  frame_rel (λ q, dest `prefix_of` q) w w' ∧ dirs_rel w w' ∧
  fs_wf (fs w') ∧ is_dir (fs w') dest = true.

Global Instance confined_rel_preorder dest : PreOrder (confined_rel dest).
Proof.
  split.
  - intros w Hwf Hd. split; [reflexivity|]. split; [reflexivity|done].
  - intros w1 w2 w3 H1 H2 Hwf Hd.
    destruct (H1 Hwf Hd) as (?&?&Hwf2&Hd2).
    destruct (H2 Hwf2 Hd2) as (?&?&?&?).
    split; [by etrans|]. split; [by etrans|done].
Qed.


(** ** The ["data"] filter *)

Definition is_special (member : TarInfo) : Prop :=
  match type member with
  | CHRTYPE | BLKTYPE | FIFOTYPE => True
  | _ => False
  end.

(** Where the ["data"] policy puts a member: its name without leading
    slashes, read from the destination. *)
Definition data_target (dest : path) (member : TarInfo) : path :=
  normpath dest (split_slash (lstrip_slash (name member))).

Lemma lstrip_slash_not_abs s : isabs (lstrip_slash s) = false.
Proof.
  induction s as [|c s IH]; [done|].
  destruct c as [[] [] [] [] [] [] [] []]; first [done | exact IH].
Qed.

Lemma lstrip_slash_id s : isabs s = false → lstrip_slash s = s.
Proof.
  destruct s as [|c s]; [done|].
  destruct c as [[] [] [] [] [] [] [] []]; done.
Qed.

Lemma data_filter_inr member dest t :
  data_filter member dest = inr t →
  name t = lstrip_slash (name member) ∧ type t = type member ∧
  linkname t = linkname member ∧ data t = data member ∧
  isabs (name t) = false ∧ dest `prefix_of` data_target dest member ∧
  ¬ is_special member.
Proof.
  unfold data_filter, data_target, is_special.
  assert ((if isabs (name member) then lstrip_slash (name member)
           else name member) = lstrip_slash (name member)) as ->.
  { destruct (isabs (name member)) eqn:Habs; [done|]. by rewrite lstrip_slash_id. }
  rewrite lstrip_slash_not_abs. case_bool_decide as Hpre; [|done]. simpl.
  destruct (type member) eqn:Hty; try done.
  - intros [= <-]. simpl. rewrite lstrip_slash_not_abs. tauto.
  - intros [= <-]. simpl. rewrite lstrip_slash_not_abs. tauto.
  - destruct (isabs (linkname member)); [done|].
    case_bool_decide; [|done]. simpl.
    intros [= <-]. simpl. rewrite lstrip_slash_not_abs. tauto.
Qed.


(** Unfolding the monad. *)
Ltac run :=
  repeat first
    [ progress unfold bind, ret, raise, get_fs, try_except, try_catch, fs_op
    | progress cbn beta iota ].

(** ** Removing a tree *)

Lemma lookup_remove_tree_under (p q : path) m :
  p `prefix_of` q → remove_tree p m !! q = None.
Proof. intros Hpq. apply map_lookup_filter_None. right. intros x _. simpl. auto. Qed.

Lemma lookup_remove_tree_other (p q : path) m :
  ¬ p `prefix_of` q → remove_tree p m !! q = m !! q.
Proof.
  intros Hpq. unfold remove_tree. rewrite map_lookup_filter.
  destruct (m !! q) as [x|]; [|done]. simpl.
  by rewrite option_guard_True.
Qed.

Lemma remove_tree_wf p m : fs_wf m → fs_wf (remove_tree p m).
Proof.
  intros Hwf q x Hq.
  apply map_lookup_filter_Some in Hq as [Hq Hpq]. simpl in Hpq.
  destruct (Hwf _ _ Hq) as [Hne Hpar]. split; [done|].
  apply is_dir_Some in Hpar. apply is_dir_Some.
  destruct (decide (parent q = [])) as [Hroot|Hroot]; [by rewrite Hroot|].
  rewrite node_at_lookup in * by done.
  rewrite lookup_remove_tree_other; [done|].
  intros Hp. apply Hpq. etrans; [done|]. apply parent_prefix.
Qed.

Lemma rmtree_dir p ignore_errors w :
  p ≠ [] → node_at (fs w) p = Some Dir →
  shutil_rmtree p ignore_errors w = (Ok tt, set_fs w (remove_tree p (fs w))).
Proof.
  intros Hp Hd. unfold shutil_rmtree. run. rewrite Hd.
  by destruct p.
Qed.

Lemma rmtree_not_dir_ignored p w :
  node_at (fs w) p ≠ Some Dir → shutil_rmtree p true w = (Ok tt, w).
Proof.
  intros Hd. unfold shutil_rmtree. run.
  by destruct (node_at (fs w) p) as [[]|].
Qed.


(** ** The cache check *)

Section cache_check.
Context (E : Env).

Lemma assets_dir_not_root : assets_dir E ≠ [].
Proof. apply child_not_root. Qed.

Lemma package_dir_not_root : package_dir E ≠ [].
Proof. apply child_not_root. Qed.

Lemma children_entry m (p : path) c n :
  m !! (p // c) = Some n → p // c ∈ children m p.
Proof.
  intros Hc. apply list_elem_of_filter. split.
  - split; [apply child_not_root|apply parent_child].
  - apply elem_of_elements, elem_of_dom. eauto.
Qed.

Lemma children_inv m (p q : path) :
  q ∈ children m p → ∃ c, q = p // c ∧ is_Some (m !! (p // c)).
Proof.
  intros [[Hne <-] Hq]%list_elem_of_filter.
  apply elem_of_elements, elem_of_dom in Hq.
  destruct (parent_snoc q Hne) as [c Hc]. exists c. by rewrite <- Hc.
Qed.

Lemma cache_check_run w :
  cache_check E w
  = (match node_at (fs w) (package_dir E) with
     | Some Dir => Ok (any_path (children (fs w) (package_dir E)))
     | Some (Symlink _) | None => Ok false
     | Some _ =>
       Raise (os_error NotADirectoryError "Not a directory" (package_dir E))
     end, w).
Proof.
  unfold cache_check, Path_exists, Path_iterdir, exists_at. run.
  destruct (node_at (fs w) (package_dir E)) as [[]|] eqn:Hn; run;
    rewrite ?Hn; done.
Qed.

Lemma cache_check_pure w : (cache_check E w).2 = w.
Proof. by rewrite cache_check_run. Qed.

Lemma cache_check_hit w c n :
  node_at (fs w) (package_dir E) = Some Dir →
  fs w !! (package_dir E // c) = Some n →
  cache_check E w = (Ok true, w).
Proof.
  intros Hd Hc. rewrite cache_check_run, Hd.
  pose proof (children_entry _ _ _ _ Hc) as Hin.
  destruct (children (fs w) (package_dir E)); [|done].
  by apply elem_of_nil in Hin.
Qed.

Lemma cache_check_empty w :
  node_at (fs w) (package_dir E) = Some Dir →
  (∀ c, fs w !! (package_dir E // c) = None) →
  cache_check E w = (Ok false, w).
Proof.
  intros Hd Hc. rewrite cache_check_run, Hd.
  destruct (children (fs w) (package_dir E)) as [|q l] eqn:Hch; [done|].
  destruct (children_inv (fs w) (package_dir E) q) as (c & -> & [n Hn]).
  { rewrite Hch. left. }
  by rewrite Hc in Hn.
Qed.

Lemma cache_check_absent w :
  node_at (fs w) (package_dir E) = None → cache_check E w = (Ok false, w).
Proof. intros Hn. by rewrite cache_check_run, Hn. Qed.

Lemma cache_check_Raise w e w1 :
  cache_check E w = (Raise e, w1) →
  e = os_error NotADirectoryError "Not a directory" (package_dir E) ∧
  w1 = w ∧ ∃ n, node_at (fs w) (package_dir E) = Some n ∧ n ≠ Dir.
Proof.
  rewrite cache_check_run.
  destruct (node_at (fs w) (package_dir E)) as [[]|] eqn:Hn; try done.
  all: intros [= <- <-]; eauto.
Qed.

End cache_check.

(** ** Creating directories *)

Lemma is_dir_insert_Dir m (p : path) : is_dir (<[p:=Dir]> m) p = true.
Proof.
  destruct p as [|c p]; [done|]. apply is_dir_Some. simpl.
  apply lookup_insert_eq.
Qed.

Lemma os_mkdir_Ok p w w1 :
  os_mkdir p w = (Ok tt, w1) → is_dir (fs w1) p = true.
Proof.
  unfold os_mkdir, fs_op. destruct (mkdir_fs p (fs w)) as [e|m'] eqn:Hop; [done|].
  apply mkdir_fs_inr in Hop as (_ & _ & ->). intros [= <-]. simpl.
  apply is_dir_insert_Dir.
Qed.

Lemma os_mkdir_existing p w :
  is_Some (node_at (fs w) p) →
  os_mkdir p w = (Raise (os_error FileExistsError "File exists" p), w).
Proof.
  intros [n Hn]. unfold os_mkdir, fs_op, mkdir_fs. by rewrite Hn.
Qed.

Lemma Path_mkdir_flat_Ok exist_ok p w w1 :
  Path_mkdir_flat exist_ok p w = (Ok tt, w1) → is_dir (fs w1) p = true.
Proof.
  unfold Path_mkdir_flat. run.
  destruct (os_mkdir p w) as [[[]|e] w2] eqn:Hop.
  - intros [= <-]. by eapply os_mkdir_Ok.
  - destruct (is_OSError (exn_cls e)); [|done].
    destruct (decide _); [done|]. unfold Path_is_dir. run.
    destruct (is_dir (fs w2) p) eqn:Hd;
      destruct exist_ok; simpl; try done. by intros [= <-].
Qed.

Lemma Path_mkdir_parents_Ok p w w1 :
  Path_mkdir_parents p w = (Ok tt, w1) → is_dir (fs w1) p = true.
Proof.
  unfold Path_mkdir_parents.
  rewrite <- (rev_involutive p) at 2. generalize (rev p). clear p. intros rp.
  destruct rp as [|c rp]; cbn [Path_mkdir_parents_rev]; run.
  - done.
  - destruct (os_mkdir _ w) as [[[]|e] w2] eqn:Hop.
    + intros [= <-]. by eapply os_mkdir_Ok.
    + destruct (is_OSError (exn_cls e)); [|done].
      destruct (decide _).
      * destruct (Path_mkdir_parents_rev rp w2) as [[[]|e'] w3]; [|done].
        apply Path_mkdir_flat_Ok.
      * unfold Path_is_dir. run.
        destruct (is_dir (fs w2) _) eqn:Hd; simpl; [|done]. by intros [= <-].
Qed.

Lemma Path_mkdir_parents_existing p w :
  is_dir (fs w) p = true → Path_mkdir_parents p w = (Ok tt, w).
Proof.
  intros Hd. unfold Path_mkdir_parents.
  assert (os_mkdir p w = (Raise (os_error FileExistsError "File exists" p), w))
    as Hop.
  { apply os_mkdir_existing. apply is_dir_Some in Hd. by rewrite Hd. }
  rewrite <- (rev_involutive p) in Hd, Hop. revert Hd Hop.
  generalize (rev p). clear p. intros rp Hd Hop.
  destruct rp as [|c rp]; cbn [Path_mkdir_parents_rev]; run; rewrite Hop;
    unfold os_error; cbn [exn_cls is_OSError];
    (destruct (decide _) as [?|_]; [done|]);
    unfold Path_is_dir; run; by rewrite Hd.
Qed.

(** ** Reading a file in chunks *)

Section hashing.
Context (E : Env).
Let H := sha1 E.

(** The read loop feeds the hash object the rest of the file, and the
    length of that rest bounds the number of iterations. *)
Lemma update_chunks_drop fuel data pos h :
  length data - pos < fuel →
  update_chunks E fuel {| f_data := data; f_pos := pos |} h
  = Some (hash_update H h (drop pos data)).
Proof.
  revert pos h. induction fuel as [|fuel IH]; intros pos h Hfuel; [lia|].
  cbn [update_chunks f_read f_data f_pos].
  destruct (drop pos data) as [|b rest] eqn:Hdrop.
  - simpl. by rewrite hash_update_nil.
  - assert (take 4096 (b :: rest) = b :: take 4095 rest) as -> by done.
    assert (length (b :: rest) = length data - pos) as Hlen
      by (by rewrite <- Hdrop, length_drop).
    simpl in Hlen. rewrite IH; [|rewrite length_cons, length_take; lia].
    f_equal. fold H. rewrite hash_update_app. f_equal.
    rewrite <- drop_drop, Hdrop. cbn [length drop app]. f_equal.
    rewrite length_take.
    destruct (Nat.min_spec 4095 (length rest)) as [[? ->]|[? ->]].
    + apply take_drop.
    + rewrite take_ge, drop_all by lia. apply app_nil_r.
Qed.

Lemma update_chunks_whole data :
  update_chunks E (S (length data)) {| f_data := data; f_pos := 0 |} (hash_new H)
  = Some (hash_update H (hash_new H) data).
Proof. rewrite update_chunks_drop; [done|lia]. Qed.

Lemma verify_file_hash_run filename expected w content :
  node_at (fs w) filename = Some (File content) →
  _verify_file_hash E filename expected w
  = (Ok (bool_decide (hexdigest_of H content = expected)), w).
Proof.
  intros Hf. unfold _verify_file_hash, open_rb. run. rewrite Hf.
  fold H. by rewrite update_chunks_whole.
Qed.

Lemma steps_verify_file_hash R `{!PreOrder R} filename expected :
  steps R (_verify_file_hash E filename expected).
Proof.
  unfold _verify_file_hash. apply steps_bind; [apply _|apply steps_open_rb; apply _|].
  intros c. destruct (update_chunks _ _ _ _); [apply steps_ret|apply steps_raise]; apply _.
Qed.
End hashing.

Lemma grow_rel_same_fs P w w' : fs w' = fs w → grow_rel P w w'.
Proof.
  intros Hfs. split; [|split].
  - intros q _. by rewrite Hfs.
  - intros q. by rewrite Hfs.
  - intros Hwf. by rewrite Hfs.
Qed.

(** ** Download *)

Section download.
Context (E : Env).

Lemma download_requests url f w :
  requests (_download_file E url f w).2 = requests w ++ [url].
Proof.
  unfold _download_file, urlopen. run.
  destruct (network E url) as [e|r]; [done|].
  assert (steps net_rel (open_wb f ;; copyfileobj r f)) as Hnet.
  { unfold open_wb, copyfileobj, file_write. net_tac. }
  specialize (Hnet (log_request url w)). unfold bind in Hnet.
  by rewrite Hnet.
Qed.


(** A download into an existing directory puts the delivered bytes in
    the file, whether or not the transfer is interrupted. *)
Lemma download_run url f w r :
  network E url = inr r →
  is_dir (fs w) (parent f) = true → node_at (fs w) f ≠ Some Dir →
  _download_file E url f w
  = (match fault r with Some e => Raise e | None => Ok tt end,
     log_request url (set_fs w (<[f := File (body r)]> (fs w)))).
Proof.
  intros Hn Hpar Hf.
  unfold _download_file, urlopen, open_wb, copyfileobj, file_write. run.
  rewrite Hn. cbn [fs log_request]. unfold open_wb_fs, write_fs.
  apply is_dir_Some in Hpar. rewrite Hpar.
  assert (match node_at (fs w) f with
          | Some Dir => inl (os_error IsADirectoryError "Is a directory" f)
          | _ => inr (<[f:=File []]> (fs w))
          end = inr (<[f:=File []]> (fs w)) :> exn + gmap path node) as ->.
  { by destruct (node_at (fs w) f) as [[]|]. }
  cbn [fs set_fs]. rewrite lookup_insert_eq, insert_insert_eq.
  by destruct (fault r).
Qed.

Lemma download_Ok url f w w1 :
  _download_file E url f w = (Ok tt, w1) →
  ∃ r, network E url = inr r ∧ fault r = None ∧
       fs w1 = <[f := File (body r)]> (fs w) ∧
       is_dir (fs w) (parent f) = true ∧ node_at (fs w) f ≠ Some Dir.
Proof.
  unfold _download_file, urlopen, open_wb, copyfileobj, file_write. run.
  destruct (network E url) as [e|r] eqn:Hn; [done|].
  cbn [fs log_request].
  destruct (open_wb_fs f (fs w)) as [e|m1] eqn:Hopen; [done|].
  apply open_wb_fs_inr in Hopen as (Hf & Hpar & ->).
  cbn [fs set_fs]. unfold write_fs. rewrite lookup_insert_eq, insert_insert_eq.
  destruct (fault r) eqn:Hfault; [done|]. intros [= <-]. by exists r.
Qed.

Lemma steps_download P url f :
  P f → steps (grow_rel P) (_download_file E url f).
Proof.
  intros HP. unfold _download_file. apply steps_bind; [apply _|..].
  - intros w. unfold urlopen.
    destruct (network E url); by apply grow_rel_same_fs.
  - intros r. apply steps_bind; [apply _|by apply steps_open_wb|].
    intros _. unfold copyfileobj.
    apply steps_bind; [apply _|by apply steps_file_write|].
    intros _. destruct (fault r); [apply steps_raise|apply steps_ret]; apply _.
Qed.
End download.

(** ** Extraction as a step *)

Lemma steps_TarFile_extract_grow member dest filter :
  steps (grow_rel (λ _, True)) (TarFile_extract member dest filter).
Proof.
  unfold TarFile_extract. apply steps_bind; [apply _|..].
  - destruct filter as [f|]; [destruct (f member dest)|];
      first [apply steps_ret|apply steps_raise]; apply _.
  - intros t. eapply steps_grow_mono; [|apply steps_extract_member]. done.
Qed.

Section provision.
Context (E : Env).

Lemma steps_tarfile_open R `{!PreOrder R} tgz : steps R (tarfile_open E tgz).
Proof.
  unfold tarfile_open. apply steps_bind; [apply _|apply steps_open_rb; apply _|].
  intros c. destruct (gzip_tar_decode E c);
    [apply steps_raise|apply steps_ret]; apply _.
Qed.

Lemma steps_extract_tgz_grow tgz :
  steps (grow_rel (λ _, True)) (_extract_tgz E tgz).
Proof.
  unfold _extract_tgz.
  apply steps_bind; [apply _|apply steps_tarfile_open; apply _|].
  intros members. apply steps_forM_; [apply _|]. intros m _.
  destruct (extract_has_filter E); apply steps_TarFile_extract_grow.
Qed.

Lemma steps_extract_tgz_net tgz : steps net_rel (_extract_tgz E tgz).
Proof.
  unfold _extract_tgz.
  apply steps_bind; [apply _|apply steps_tarfile_open; apply _|].
  intros members. apply steps_forM_; [apply _|]. intros m _.
  destruct (extract_has_filter E); apply steps_net_TarFile_extract.
Qed.

(** What [get_path] does once the archive is on disk. *)
Definition install : M path :=
  let* ok := _verify_file_hash E (archive_file E) EXPECTED_SHA1 in
  (if negb ok then
     raise (Exception ValueError
              ("Hash verification failed for " +:+ path_str (archive_file E))
              None)
   else ret tt) ;;
  _extract_tgz E (archive_file E) ;;
  Path_unlink (archive_file E) ;;
  ret (package_dir E).

Lemma provision_body_unfold :
  provision_body E =
  (Path_mkdir_parents (assets_dir E) ;;
   _download_file E archive_url (archive_file E) ;;
   install).
Proof. reflexivity. Qed.

Lemma steps_install R `{!PreOrder R} :
  steps R (_extract_tgz E (archive_file E)) →
  steps R (Path_unlink (archive_file E)) →
  steps R install.
Proof.
  intros Hx Hu. unfold install.
  apply steps_bind; [apply _|by apply steps_verify_file_hash|]. intros ok.
  apply steps_bind; [apply _|..].
  { destruct (negb ok); [apply steps_raise|apply steps_ret]; apply _. }
  intros _. apply steps_bind; [apply _|done|]. intros _.
  apply steps_bind; [apply _|done|]. intros _. apply steps_ret; apply _.
Qed.

Lemma steps_install_grow : steps (grow_rel (λ _, True)) install.
Proof.
  apply steps_install; [apply _|apply steps_extract_tgz_grow|].
  by apply steps_Path_unlink.
Qed.

Lemma steps_install_net : steps net_rel install.
Proof.
  apply steps_install; [apply _|apply steps_extract_tgz_net|].
  apply steps_net_fs_op.
Qed.

Lemma steps_provision_body_grow : steps (grow_rel (λ _, True)) (provision_body E).
Proof.
  rewrite provision_body_unfold. apply steps_bind; [apply _|..].
  - eapply steps_grow_mono; [|apply steps_Path_mkdir_parents]. done.
  - intros _. apply steps_bind; [apply _|by apply steps_download|].
    intros _. apply steps_install_grow.
Qed.

(** The error [get_path] raises for a failure [e] of the [try] block. *)
Definition wrapped (e : exn) : exn :=
  Exception RuntimeError
    ("Failed to download Monaco Editor assets: " +:+ str e) (Some e).

(** The world after the clean-up of the [except] clause. *)
Definition cleanup (w : world) : world :=
  if is_dir (fs w) (assets_dir E)
  then set_fs w (remove_tree (assets_dir E) (fs w))
  else w.

Lemma provision_handler_run e w :
  provision_handler E e w = (Raise (wrapped e), cleanup w).
Proof.
  unfold provision_handler, cleanup, Path_exists, exists_at, is_dir. run.
  destruct (node_at (fs w) (assets_dir E)) as [[c| |t|k]|] eqn:Hn; run;
    try done.
  - rewrite rmtree_not_dir_ignored; [done|]. by rewrite Hn.
  - rewrite rmtree_dir; [done|apply assets_dir_not_root|done].
  - rewrite rmtree_not_dir_ignored; [done|]. by rewrite Hn.
Qed.

Lemma cleanup_requests w : requests (cleanup w) = requests w.
Proof. unfold cleanup. by destruct (is_dir _ _). Qed.

Lemma cleanup_outside w (p : path) :
  ¬ assets_dir E `prefix_of` p → fs (cleanup w) !! p = fs w !! p.
Proof.
  intros Hp. unfold cleanup. destruct (is_dir _ _); [|done]. simpl.
  by apply lookup_remove_tree_other.
Qed.


(** On the slow path with the version directory in place, exactly one
    request is sent, to the registry. *)
Lemma provision_requests w :
  is_dir (fs w) (assets_dir E) = true →
  requests (try_except (provision_body E) (provision_handler E) w).2
  = requests w ++ [archive_url].
Proof.
  intros Hd. unfold try_except. rewrite provision_body_unfold.
  unfold bind at 1. rewrite Path_mkdir_parents_existing by done.
  unfold bind at 1.
  pose proof (download_requests E archive_url (archive_file E) w) as Hreq.
  destruct (_download_file E archive_url (archive_file E) w) as [[[]|e] w1].
  - pose proof (steps_install_net w1) as Hnet. unfold net_rel in Hnet.
    destruct (install w1) as [[p|e] w2]; simpl in *.
    + congruence.
    + rewrite provision_handler_run. simpl. rewrite cleanup_requests. congruence.
  - rewrite provision_handler_run. simpl in *. by rewrite cleanup_requests.
Qed.
End provision.

(** Well-formedness of a concrete tree can be computed. *)
Definition fs_wfb (m : gmap path node) : bool :=
  bool_decide (map_Forall (λ (p : path) (_ : node),
                             p ≠ [] ∧ is_dir m (parent p) = true) m).

Lemma fs_wfb_true m : fs_wfb m = true → fs_wf m.
Proof.
  unfold fs_wfb. intros Hb%bool_decide_eq_true p n Hp. by apply (Hb p n).
Qed.

Lemma children_nil m (p : path) c : children m p = [] → m !! (p // c) = None.
Proof.
  intros Hch. destruct (m !! (p // c)) as [n|] eqn:Hn; [|done].
  apply children_entry in Hn. rewrite Hch in Hn. by apply elem_of_nil in Hn.
Qed.

(** ** Inverting successful runs *)

Lemma bind_Ok_inv {A B} (m : M A) (k : A → M B) w b w' :
  bind m k w = (Ok b, w') →
  ∃ a w1, m w = (Ok a, w1) ∧ k a w1 = (Ok b, w').
Proof.
  unfold bind. destruct (m w) as [[a|e] w1]; [|done]. intros Hk. eauto.
Qed.



(** ** A digest that differs from the pin *)

Section mismatch.
Context (E : Env).

(** The [ValueError] of [get_path]. *)
Definition hash_error : exn :=
  Exception ValueError
    ("Hash verification failed for " +:+ path_str (archive_file E)) None.

(** A run that gets as far as verification with an archive whose digest
    is not the pinned one: the fast path is not taken, the version
    directory can be created, the transfer completes, and the archive
    path is free for a file. *)
Definition mismatch_run (w : world) (r : response) : Prop :=
  (cache_check E w).1 = Ok false ∧
  (Path_mkdir_parents (assets_dir E) w).1 = Ok tt ∧
  network E archive_url = inr r ∧ fault r = None ∧
  node_at (fs w) (archive_file E) ≠ Some Dir ∧
  hexdigest_of (sha1 E) (body r) ≠ EXPECTED_SHA1.

Lemma archive_file_parent : parent (archive_file E) = assets_dir E.
Proof. apply parent_child. Qed.

Lemma install_hash_mismatch w content :
  node_at (fs w) (archive_file E) = Some (File content) →
  hexdigest_of (sha1 E) content ≠ EXPECTED_SHA1 →
  install E w = (Raise hash_error, w).
Proof.
  intros Hf Hne. unfold install. unfold bind at 1.
  rewrite (verify_file_hash_run E _ _ _ content) by done.
  by rewrite bool_decide_false.
Qed.

Lemma archive_file_not_above : ¬ archive_file E `prefix_of` assets_dir E.
Proof. apply child_not_prefix. Qed.

Lemma provision_hash_mismatch w r :
  (Path_mkdir_parents (assets_dir E) w).1 = Ok tt →
  network E archive_url = inr r → fault r = None →
  node_at (fs w) (archive_file E) ≠ Some Dir →
  hexdigest_of (sha1 E) (body r) ≠ EXPECTED_SHA1 →
  let w1 := (Path_mkdir_parents (assets_dir E) w).2 in
  let w2 := log_request archive_url
              (set_fs w1 (<[archive_file E := File (body r)]> (fs w1))) in
  try_except (provision_body E) (provision_handler E) w
  = (Raise (wrapped hash_error), cleanup E w2) ∧
  is_dir (fs w2) (assets_dir E) = true.
Proof.
  intros Hmk Hnet Hfault Hfile Hne w1 w2.
  assert (Path_mkdir_parents (assets_dir E) w = (Ok tt, w1)) as Hmk'.
  { subst w1. destruct (Path_mkdir_parents (assets_dir E) w) as [[[]|] ?];
      simpl in *; congruence. }
  pose proof (Path_mkdir_parents_Ok _ _ _ Hmk') as Hd.
  assert (node_at (fs w1) (archive_file E) ≠ Some Dir) as Hfile1.
  { rewrite !node_at_lookup in * by apply child_not_root.
    destruct (steps_Path_mkdir_parents (assets_dir E) w) as (Hfr & _ & _).
    fold w1 in Hfr. rewrite Hfr; [done|]. apply archive_file_not_above. }
  assert (is_dir (fs w2) (assets_dir E) = true) as Hd2.
  { subst w2. cbn [fs log_request set_fs]. by apply insert_dirs. }
  split; [|done].
  unfold try_except. rewrite provision_body_unfold.
  unfold bind at 1. rewrite Hmk'. unfold bind at 1.
  rewrite (download_run E _ _ _ r), Hfault;
    [|done|by rewrite archive_file_parent|done].
  fold w2. rewrite (install_hash_mismatch w2 (body r)); [|..|done].
  - by rewrite provision_handler_run.
  - subst w2. cbn [fs log_request set_fs].
    rewrite node_at_lookup by apply child_not_root.
    apply lookup_insert_eq.
Qed.

Lemma get_path_hit w :
  (cache_check E w).1 = Ok true → get_path E w = (Ok (package_dir E), w).
Proof.
  intros Hc. unfold get_path, bind, ret.
  pose proof (cache_check_pure E w) as Hw.
  destruct (cache_check E w) as [[[]|] w']; simpl in *; congruence.
Qed.

Lemma get_path_slow w :
  (cache_check E w).1 = Ok false →
  get_path E w = try_except (provision_body E) (provision_handler E) w.
Proof.
  intros Hc. unfold get_path, bind.
  pose proof (cache_check_pure E w) as Hw.
  destruct (cache_check E w) as [[[]|] w']; simpl in *; congruence.
Qed.
End mismatch.

(** Nothing to clear. *)
Lemma clear_cache_missing (E : Env) (w : world) :
  exists_at (fs w) (CACHE_DIR E) = false → clear_cache E w = (Ok tt, w).
Proof. intros Hn. unfold clear_cache, Path_exists. run. by rewrite Hn. Qed.

(** * The claims *)

(** C4.  When [package/] is a directory with at least one entry, [get_path]
    returns it at once: the result is [package_dir] and the world, request
    log included, is the one it started from, so nothing was downloaded,
    verified or extracted.  When [package/] is a directory without entries
    the call goes through the [try] block instead, and, the tree being
    well-formed, sends its request to the registry. *)
Theorem get_path_fast_path (E : Env) (w : world) :
  node_at (fs w) (package_dir E) = Some Dir →
  ((∃ c n, fs w !! (package_dir E // c) = Some n) →
   get_path E w = (Ok (package_dir E), w)) ∧
  (children (fs w) (package_dir E) = [] →
   get_path E w = try_except (provision_body E) (provision_handler E) w ∧
   (fs_wf (fs w) → requests (get_path E w).2 = requests w ++ [archive_url])).
Proof.
  intros Hd. split.
  - intros (c & n & Hc). unfold get_path, bind.
    by rewrite (cache_check_hit E w c n).
  - intros Hch.
    assert (get_path E w
            = try_except (provision_body E) (provision_handler E) w) as Hslow.
    { unfold get_path, bind. rewrite cache_check_empty; [done..|].
      intros c. by apply children_nil. }
    split; [done|]. intros Hwf. rewrite Hslow. apply provision_requests.
    apply (fs_wf_ancestors _ (assets_dir E) (package_dir E)); [done|..].
    + rewrite Hd. by eexists.
    + by exists ["package"].
    + intros Heq. apply (child_not_prefix (assets_dir E) "package").
      fold (package_dir E). by rewrite <- Heq.
Qed.

Lemma get_path_fast_path_witness :
  let E := Scenario.good_env in
  let w := Scenario.populated in
  node_at (fs w) (package_dir E) = Some Dir ∧
  ((∃ c n, fs w !! (package_dir E // c) = Some n) →
   get_path E w = (Ok (package_dir E), w)) ∧
  (children (fs w) (package_dir E) = [] →
   get_path E w = try_except (provision_body E) (provision_handler E) w ∧
   (fs_wf (fs w) → requests (get_path E w).2 = requests w ++ [archive_url])).
Proof.
  intros E w.
  assert (node_at (fs w) (package_dir E) = Some Dir) as Hd
    by (vm_compute; reflexivity).
  exact (conj Hd (get_path_fast_path E w Hd)).
Defined.

(** The two cases of C4 on concrete trees. *)
Example get_path_populated :
  (get_path Scenario.good_env Scenario.populated).1
  = Ok (Scenario.assets // "package") ∧
  requests (get_path Scenario.good_env Scenario.populated).2 = [].
Proof. split; vm_compute; reflexivity. Qed.

Example get_path_empty_package :
  children (fs Scenario.empty_package) (package_dir Scenario.good_env) = [] ∧
  fs_wfb (fs Scenario.empty_package) = true ∧
  requests (get_path Scenario.good_env Scenario.empty_package).2
  = ["https://registry.npmjs.org/monaco-editor/-/monaco-editor-0.54.0.tgz"].
Proof. split_and!; vm_compute; reflexivity. Qed.

(** C10.  Whenever the cache check answers yes, the call changes nothing:
    the file system and the request log after [get_path] are those before
    it. *)
Theorem get_path_fast_path_frame (E : Env) (w : world) :
  (cache_check E w).1 = Ok true →
  get_path E w = (Ok (package_dir E), w) ∧
  fs (get_path E w).2 = fs w ∧ requests (get_path E w).2 = requests w.
Proof.
  intros Hc. by rewrite (get_path_hit E w Hc).
Qed.

Lemma get_path_fast_path_frame_witness :
  let E := Scenario.good_env in
  let w := Scenario.populated in
  (cache_check E w).1 = Ok true ∧
  get_path E w = (Ok (package_dir E), w) ∧
  fs (get_path E w).2 = fs w ∧ requests (get_path E w).2 = requests w.
Proof.
  intros E w.
  assert ((cache_check E w).1 = Ok true) as Hc by (vm_compute; reflexivity).
  exact (conj Hc (get_path_fast_path_frame E w Hc)).
Defined.

(** C9.  An exception raised by the cache check, which happens when
    [package] exists but is not a directory, leaves [get_path] as it is: it
    is the [NotADirectoryError] of [iterdir], not wrapped in a
    [RuntimeError], and the world is untouched (no clean-up runs). *)
Theorem get_path_check_error_unwrapped (E : Env) (w : world) (e : exn) :
  (cache_check E w).1 = Raise e →
  get_path E w = (Raise e, w) ∧
  e = os_error NotADirectoryError "Not a directory" (package_dir E) ∧
  exn_cause e = None ∧
  ∃ n, node_at (fs w) (package_dir E) = Some n ∧ n ≠ Dir.
Proof.
  intros Hc. destruct (cache_check E w) as [r w1] eqn:Hcc.
  simpl in Hc. subst r.
  pose proof (cache_check_Raise E w e w1 Hcc) as (-> & -> & Hn).
  split; [|done]. unfold get_path, bind. by rewrite Hcc.
Qed.

Lemma get_path_check_error_unwrapped_witness :
  let E := Scenario.good_env in
  let w := Scenario.package_is_file in
  let e := os_error NotADirectoryError "Not a directory" (package_dir E) in
  (cache_check E w).1 = Raise e ∧
  get_path E w = (Raise e, w) ∧
  e = os_error NotADirectoryError "Not a directory" (package_dir E) ∧
  exn_cause e = None ∧
  ∃ n, node_at (fs w) (package_dir E) = Some n ∧ n ≠ Dir.
Proof.
  intros E w e.
  assert ((cache_check E w).1 = Raise e) as Hc by (vm_compute; reflexivity).
  exact (conj Hc (get_path_check_error_unwrapped E w e Hc)).
Defined.

(** The converse of the hypothesis of C9: a [package] that is a regular or
    a special file makes the cache check raise. *)
Lemma cache_check_not_dir (E : Env) (w : world) (n : node) :
  node_at (fs w) (package_dir E) = Some n →
  n ≠ Dir → (∀ t, n ≠ Symlink t) →
  cache_check E w
  = (Raise (os_error NotADirectoryError "Not a directory" (package_dir E)), w).
Proof.
  intros Hn Hd Hl. rewrite cache_check_run, Hn.
  destruct n; try done. by destruct (Hl target).
Qed.


Example clear_cache_populated :
  let w' := (clear_cache Scenario.good_env Scenario.populated).2 in
  (clear_cache Scenario.good_env Scenario.populated).1 = Ok tt ∧
  node_at (fs w') Scenario.cache = None ∧
  node_at (fs w') (Scenario.assets // "package" // "package.json") = None ∧
  node_at (fs w') ["home"; "user"; ".cache"] = Some Dir.
Proof. split_and!; vm_compute; reflexivity. Qed.

Example clear_cache_absent :
  node_at (fs Scenario.fresh) Scenario.cache = None ∧
  (clear_cache Scenario.good_env Scenario.fresh).1 = Ok tt.
Proof. split; vm_compute; reflexivity. Qed.

Example clear_cache_not_a_directory :
  (clear_cache Scenario.good_env Scenario.cache_is_file).1
  = Raise (os_error NotADirectoryError "Not a directory" Scenario.cache) ∧
  node_at (fs (clear_cache Scenario.good_env Scenario.cache_is_file).2)
    Scenario.cache = Some (File []).
Proof. split; vm_compute; reflexivity. Qed.

(** C5.  For every file, the read loop of [_verify_file_hash] hands the
    hash object the whole content, in chunks of at most 4096 bytes, and ends
    with the state that one [update] with the whole content gives; the
    function returns [True] exactly when the hex digest of the content is
    the expected one, and it leaves the world alone. *)
Theorem verify_file_hash_spec (E : Env) (w : world) (filename : path)
    (expected : string) (content : bytes) :
  node_at (fs w) filename = Some (File content) →
  update_chunks E (S (length content)) {| f_data := content; f_pos := 0 |}
    (hash_new (sha1 E))
  = Some (hash_update (sha1 E) (hash_new (sha1 E)) content) ∧
  (∀ n f, length (f_read n f).1 ≤ n) ∧
  _verify_file_hash E filename expected w
  = (Ok (bool_decide (hexdigest_of (sha1 E) content = expected)), w) ∧
  ((_verify_file_hash E filename expected w).1 = Ok true
   ↔ hexdigest_of (sha1 E) content = expected).
Proof.
  intros Hf. split; [apply update_chunks_whole|]. split.
  { intros n f. unfold f_read. simpl. rewrite length_take. lia. }
  rewrite (verify_file_hash_run E _ _ _ content) by done.
  split; [done|]. simpl. split.
  - intros [= Hb]. by apply bool_decide_eq_true in Hb.
  - intros Hb. by rewrite bool_decide_true.
Qed.

Lemma verify_file_hash_spec_witness :
  let E := Scenario.mismatch_env in
  let w := Scenario.with_big_file in
  let expected := "3894eaa13603b514d9de55dd1ec6d5a0c184bf9c" in
  node_at (fs w) Scenario.big_file = Some (File Scenario.big) ∧
  update_chunks E (S (length Scenario.big))
    {| f_data := Scenario.big; f_pos := 0 |} (hash_new (sha1 E))
  = Some (hash_update (sha1 E) (hash_new (sha1 E)) Scenario.big) ∧
  (∀ n f, length (f_read n f).1 ≤ n) ∧
  _verify_file_hash E Scenario.big_file expected w
  = (Ok (bool_decide (hexdigest_of (sha1 E) Scenario.big = expected)), w) ∧
  ((_verify_file_hash E Scenario.big_file expected w).1 = Ok true
   ↔ hexdigest_of (sha1 E) Scenario.big = expected).
Proof.
  intros E w expected.
  assert (node_at (fs w) Scenario.big_file = Some (File Scenario.big)) as Hf
    by reflexivity.
  exact (conj Hf (verify_file_hash_spec E w Scenario.big_file expected
                    Scenario.big Hf)).
Defined.

(** With the real SHA-1, a file of 4200 bytes read in two chunks. *)
Example verify_big_file :
  (_verify_file_hash Scenario.mismatch_env Scenario.big_file
     "3894eaa13603b514d9de55dd1ec6d5a0c184bf9c" Scenario.with_big_file).1
  = Ok true.
Proof. vm_compute. reflexivity. Qed.



(** A digest mismatch with the real SHA-1: the error, and the tree after
    the clean-up. *)
Example get_path_hash_mismatch :
  let E := Scenario.mismatch_env in
  let out := get_path E Scenario.fresh in
  out.1 = Raise (Exception RuntimeError
    "Failed to download Monaco Editor assets: Hash verification failed for /home/user/.cache/monaco-assets/monaco-editor-0.54.0/monaco-editor-0.54.0.tgz"
    (Some (Exception ValueError
      "Hash verification failed for /home/user/.cache/monaco-assets/monaco-editor-0.54.0/monaco-editor-0.54.0.tgz"
      None))) ∧
  node_at (fs out.2) Scenario.assets = None ∧
  node_at (fs out.2) (archive_file E) = None ∧
  node_at (fs out.2) Scenario.cache = Some Dir.
Proof. split_and!; vm_compute; reflexivity. Qed.

(** The clean-up ignores its own failure: with a regular file in the place
    of the version directory, [mkdir] fails, [rmtree] cannot remove the
    file, and the caller still gets the wrapped [mkdir] error. *)
Example get_path_assets_is_file :
  let E := Scenario.good_env in
  let w := Scenario.world_of
             (Scenario.home ++ [(["home"; "user"; ".cache"], Dir);
                                (Scenario.cache, Dir);
                                (Scenario.assets, File [])]) in
  (get_path E w).1
  = Raise (wrapped (os_error FileExistsError "File exists" Scenario.assets)) ∧
  node_at (fs (get_path E w).2) Scenario.assets = Some (File []).
Proof. split; vm_compute; reflexivity. Qed.

(** C3 as the specification states it: the error of a digest mismatch
    carries the computed and the expected digest. *)
Definition error_carries_digests (E : Env) (w : world) (r : response) : Prop :=
  ∃ e, (get_path E w).1 = Raise e ∧
       exn_mentions e (hexdigest_of (sha1 E) (body r)) = true ∧
       exn_mentions e EXPECTED_SHA1 = true.

(** C3, counterexample.  On a fresh machine the registry serves three bytes
    whose SHA-1 is not the pinned one: the run is a digest mismatch, and
    neither the raised error nor its cause mentions either digest. *)
Lemma hash_mismatch_error_omits_digests :
  let E := Scenario.mismatch_env in
  let r := {| body := Scenario.tgz_bytes; fault := None |} in
  mismatch_run E Scenario.fresh r ∧
  ¬ error_carries_digests E Scenario.fresh r ∧
  (get_path E Scenario.fresh).1 = Raise (wrapped (hash_error E)) ∧
  exn_mentions (wrapped (hash_error E)) (hexdigest_of (sha1 E) (body r)) = false ∧
  exn_mentions (wrapped (hash_error E)) EXPECTED_SHA1 = false.
Proof.
  intros E r. split; [|split; [|split_and!; vm_compute; reflexivity]].
  - unfold mismatch_run.
    split_and!; first [vm_compute; reflexivity | vm_compute; discriminate].
  - intros (e & He & _ & Hexpected).
    assert ((get_path E Scenario.fresh).1 = Raise (wrapped (hash_error E))) as Hrun
      by (vm_compute; reflexivity).
    rewrite Hrun in He. injection He as <-.
    vm_compute in Hexpected. discriminate Hexpected.
Qed.

(** C3, amended.  On a digest mismatch [get_path] fails with a
    [RuntimeError] whose cause is the [ValueError] "Hash verification failed
    for <archive path>": the error names the archive file and is the same
    whatever digest was computed. *)
Theorem hash_mismatch_error (E : Env) (w : world) (r : response) :
  mismatch_run E w r →
  (get_path E w).1 = Raise (wrapped (hash_error E)) ∧
  exn_cls (wrapped (hash_error E)) = RuntimeError ∧
  exn_cause (wrapped (hash_error E)) = Some (hash_error E) ∧
  exn_cls (hash_error E) = ValueError ∧
  str (hash_error E)
  = "Hash verification failed for " +:+ path_str (archive_file E).
Proof.
  intros (Hc & Hmk & Hnet & Hfault & Hfile & Hne).
  rewrite (get_path_slow E w Hc).
  destruct (provision_hash_mismatch E w r Hmk Hnet Hfault Hfile Hne) as [-> _].
  done.
Qed.

Lemma hash_mismatch_error_witness :
  let E := Scenario.mismatch_env in
  let w := Scenario.fresh in
  let r := {| body := Scenario.tgz_bytes; fault := None |} in
  mismatch_run E w r ∧
  (get_path E w).1 = Raise (wrapped (hash_error E)) ∧
  exn_cls (wrapped (hash_error E)) = RuntimeError ∧
  exn_cause (wrapped (hash_error E)) = Some (hash_error E) ∧
  exn_cls (hash_error E) = ValueError ∧
  str (hash_error E)
  = "Hash verification failed for " +:+ path_str (archive_file E).
Proof.
  intros E w r.
  assert (mismatch_run E w r) as Hrun.
  { unfold mismatch_run.
    split_and!; first [vm_compute; reflexivity | vm_compute; discriminate]. }
  exact (conj Hrun (hash_mismatch_error E w r Hrun)).
Defined.

(** C8 as the specification states it: no operation creates the cache
    root. *)
Definition cache_root_never_created (E : Env) (w : world) : Prop :=
  node_at (fs w) (CACHE_DIR E) = None →
  node_at (fs (get_path E w).2) (CACHE_DIR E) = None ∧
  node_at (fs (clear_cache E w).2) (CACHE_DIR E) = None.

(** C8, counterexample.  On a fresh machine without network, [get_path]
    fails, and the cache root, absent before the call, is a directory after
    it: [mkdir(parents=True)] created it on the way to the version
    directory, and the clean-up removes the version directory only. *)
Lemma get_path_creates_cache_root :
  let E := Scenario.offline_env in
  let w := Scenario.fresh in
  fs_wf (fs w) ∧
  node_at (fs w) (CACHE_DIR E) = None ∧
  node_at (fs (get_path E w).2) (CACHE_DIR E) = Some Dir ∧
  ¬ cache_root_never_created E w.
Proof.
  intros E w.
  assert (node_at (fs w) (CACHE_DIR E) = None) as Hbefore
    by (vm_compute; reflexivity).
  assert (node_at (fs (get_path E w).2) (CACHE_DIR E) = Some Dir) as Hafter
    by (vm_compute; reflexivity).
  split; [apply fs_wfb_true; vm_compute; reflexivity|].
  split; [done|]. split; [done|].
  intros Hclaim. destruct (Hclaim Hbefore) as [Hnone _]. congruence.
Qed.

Lemma cache_dir_above_assets (E : Env) :
  CACHE_DIR E `prefix_of` assets_dir E ∧ CACHE_DIR E ≠ assets_dir E ∧
  ¬ assets_dir E `prefix_of` CACHE_DIR E.
Proof.
  split; [by eexists|]. split.
  - intros Heq. eapply child_not_prefix. unfold assets_dir in Heq.
    by rewrite <- Heq.
  - apply child_not_prefix.
Qed.

(** C8, amended.  The cache root is located through the platform's cache
    directory and created on demand: when it is absent, [clear_cache] leaves
    it absent, and [get_path] creates it, together with its missing
    ancestors, whenever it gets to create the version directory, and leaves
    it in place whether the rest of the call succeeds or fails. *)
Theorem cache_root_created_on_demand (E : Env) (w : world) :
  fs_wf (fs w) → node_at (fs w) (CACHE_DIR E) = None →
  node_at (fs (clear_cache E w).2) (CACHE_DIR E) = None ∧
  ((Path_mkdir_parents (assets_dir E) w).1 = Ok tt →
   is_dir (fs (get_path E w).2) (CACHE_DIR E) = true).
Proof.
  intros Hwf Habsent.
  destruct (cache_dir_above_assets E) as (Hpre & Hne & Hnot).
  pose proof (user_cache_dir_not_root E "monaco-assets" "monaco-assets") as Hroot.
  fold (CACHE_DIR E) in Hroot. split.
  { rewrite clear_cache_missing; [done|]. unfold exists_at. by rewrite Habsent. }
  intros Hmk.
  assert (node_at (fs w) (package_dir E) = None) as Hpkg.
  { destruct (node_at (fs w) (package_dir E)) as [n|] eqn:Hn; [|done].
    assert (is_dir (fs w) (CACHE_DIR E) = true) as Hd.
    { apply (fs_wf_ancestors _ _ (package_dir E)); [done|by rewrite Hn| |].
      - etrans; [exact Hpre|]. by exists ["package"].
      - intros Heq. apply Hnot. rewrite Heq. by exists ["package"]. }
    apply is_dir_Some in Hd. congruence. }
  unfold get_path, bind. rewrite (cache_check_absent E w Hpkg).
  unfold try_except. rewrite provision_body_unfold. unfold bind at 1.
  pose proof (steps_Path_mkdir_parents (assets_dir E) w) as (_ & _ & Hwf1).
  destruct (Path_mkdir_parents (assets_dir E) w) as [[[]|e] w1] eqn:Hrun;
    [|done]. simpl in Hwf1.
  pose proof (Path_mkdir_parents_Ok _ _ _ Hrun) as Hassets.
  assert (is_dir (fs w1) (CACHE_DIR E) = true) as Hcache1.
  { apply (fs_wf_ancestors _ _ (assets_dir E)); [by apply Hwf1| |done..].
    apply is_dir_Some in Hassets. by rewrite Hassets. }
  assert (steps (grow_rel (λ _, True))
            (_download_file E archive_url (archive_file E) ;; install E))
    as Hrest.
  { apply steps_bind; [apply _|by apply steps_download|].
    intros _. apply steps_install_grow. }
  destruct (Hrest w1) as (_ & Hdirs & _).
  destruct ((_download_file E archive_url (archive_file E) ;; install E) w1)
    as [[p|e] w2]; simpl in *.
  - by apply Hdirs.
  - rewrite provision_handler_run. simpl.
    apply is_dir_Some. rewrite node_at_lookup by done.
    rewrite cleanup_outside by done.
    rewrite <- node_at_lookup by done. apply is_dir_Some. by apply Hdirs.
Qed.

Lemma cache_root_created_on_demand_witness :
  let E := Scenario.offline_env in
  let w := Scenario.fresh in
  fs_wf (fs w) ∧ node_at (fs w) (CACHE_DIR E) = None ∧
  node_at (fs (clear_cache E w).2) (CACHE_DIR E) = None ∧
  ((Path_mkdir_parents (assets_dir E) w).1 = Ok tt →
   is_dir (fs (get_path E w).2) (CACHE_DIR E) = true).
Proof.
  intros E w.
  assert (fs_wf (fs w)) as Hwf by (apply fs_wfb_true; vm_compute; reflexivity).
  assert (node_at (fs w) (CACHE_DIR E) = None) as Habsent
    by (vm_compute; reflexivity).
  exact (conj Hwf (conj Habsent (cache_root_created_on_demand E w Hwf Habsent))).
Defined.

(** ** Extraction under the ["data"] filter *)

Lemma data_filter_target member dest t :
  data_filter member dest = inr t →
  os_path_join dest (name t) = data_target dest member ∧
  dest `prefix_of` data_target dest member.
Proof.
  intros (Hname & _ & _ & _ & Habs & Hpre & _)%data_filter_inr.
  split; [|done]. unfold os_path_join, data_target. by rewrite Habs, Hname.
Qed.


Lemma TarFile_extract_rejected member dest e w :
  data_filter member dest = inl e →
  TarFile_extract member dest (Some data_filter) w = (Raise e, w).
Proof. intros Hf. unfold TarFile_extract, bind. by rewrite Hf. Qed.









(** With the filter, the archive holding [../../evil] is rejected by
    [get_path] as a whole, and nothing is left outside the version
    directory, which the clean-up removes. *)
Example get_path_traversal_filtered :
  let out := get_path (Scenario.traversal_env true) Scenario.fresh in
  out.1 = Raise (wrapped (Exception OutsideDestinationError "../../evil" None)) ∧
  node_at (fs out.2) ["home"; "user"; ".cache"; "evil"] = None ∧
  node_at (fs out.2) Scenario.assets = None.
Proof. split_and!; vm_compute; reflexivity. Qed.

(** Without it, [get_path] succeeds and the file is written outside. *)
Example get_path_traversal_unfiltered :
  let out := get_path (Scenario.traversal_env false) Scenario.fresh in
  out.1 = Ok (Scenario.assets // "package") ∧
  node_at (fs out.2) ["home"; "user"; ".cache"; "evil"]
  = Some (File (String.list_byte_of_string "x")).
Proof. split_and!; vm_compute; reflexivity. Qed.

(** ** What a successful extraction leaves behind *)

Lemma fs_op_Ok op w w' :
  fs_op op w = (Ok tt, w') → ∃ m', op (fs w) = inr m' ∧ w' = set_fs w m'.
Proof.
  unfold fs_op. destruct (op (fs w)) as [e|m']; [done|].
  intros [= <-]. eauto.
Qed.

Lemma node_at_insert m (p : path) n : is_Some (node_at (<[p:=n]> m) p).
Proof.
  destruct p as [|c p]; [by eexists|]. simpl. rewrite lookup_insert_eq.
  by eexists.
Qed.

Lemma extract_member_creates member t w w' :
  extract_member member t w = (Ok tt, w') → is_Some (node_at (fs w') t).
Proof.
  unfold extract_member. intros (_ & w1 & _ & H)%bind_Ok_inv.
  destruct (type member).
  - apply bind_Ok_inv in H as (_ & w2 & _ & H).
    apply fs_op_Ok in H as (m' & (_ & ->)%write_fs_inr & ->).
    apply node_at_insert.
  - unfold try_catch, try_except in H.
    destruct (os_mkdir t w1) as [[[]|e] w2] eqn:Hmk.
    + injection H as <-. apply os_mkdir_Ok in Hmk.
      apply is_dir_Some in Hmk. by rewrite Hmk.
    + destruct (bool_decide _); [|done]. unfold Path_is_dir in H.
      revert H. run. destruct (is_dir (fs w2) t) eqn:Hd; [|done].
      intros [= <-]. apply is_dir_Some in Hd. by rewrite Hd.
  - apply bind_Ok_inv in H as (_ & w2 & _ & H).
    apply fs_op_Ok in H as (m' & (_ & _ & ->)%mknode_fs_inr & ->).
    apply node_at_insert.
  - apply fs_op_Ok in H as (m' & (_ & _ & ->)%mknode_fs_inr & ->).
    apply node_at_insert.
  - apply fs_op_Ok in H as (m' & (_ & _ & ->)%mknode_fs_inr & ->).
    apply node_at_insert.
  - apply fs_op_Ok in H as (m' & (_ & _ & ->)%mknode_fs_inr & ->).
    apply node_at_insert.
Qed.

(** Where [_extract_tgz] writes a member: under the ["data"] policy when
    the backend has the filter, at its plain joined path when it has not. *)
Definition extract_target (E : Env) (dest : path) (m : TarInfo) : path :=
  if extract_has_filter E then data_target dest m
  else os_path_join dest (name m).

(** The body of the loop of [_extract_tgz]. *)
Definition extract_one (E : Env) (dest : path) (member : TarInfo) : M unit :=
  if extract_has_filter E then TarFile_extract member dest (Some data_filter)
  else TarFile_extract member dest None.

Lemma extract_one_creates E dest m w w' :
  extract_one E dest m w = (Ok tt, w') →
  is_Some (node_at (fs w') (extract_target E dest m)).
Proof.
  unfold extract_one, extract_target, TarFile_extract.
  destruct (extract_has_filter E).
  - intros (t & w1 & Ht & H)%bind_Ok_inv.
    destruct (data_filter m dest) as [e|t'] eqn:Hf; [done|].
    injection Ht as -> ->.
    apply data_filter_target in Hf as [<- _]. by eapply extract_member_creates.
  - intros (t & w1 & [= <- <-] & H)%bind_Ok_inv.
    by eapply extract_member_creates.
Qed.

Lemma steps_extract_one E dest m :
  steps (grow_rel (λ _, True)) (extract_one E dest m).
Proof.
  unfold extract_one. destruct (extract_has_filter E);
    apply steps_TarFile_extract_grow.
Qed.

(** A property established by one iteration of a successful loop and kept
    by the others holds at its end. *)
Lemma forM_Ok_elem {A} (I Q : world → Prop) (l : list A) body x w w' :
  forM_ l body w = (Ok tt, w') → x ∈ l → I w →
  (∀ y w1, I w1 → I (body y w1).2) →
  (∀ w1 w2, I w1 → body x w1 = (Ok tt, w2) → Q w2) →
  (∀ y w1, Q w1 → Q (body y w1).2) →
  Q w'.
Proof.
  intros Hrun Hx HI Hinv Hest Hkeep. revert w Hrun HI.
  induction l as [|y l IH]; intros w Hrun HI; [by apply elem_of_nil in Hx|].
  simpl in Hrun. apply bind_Ok_inv in Hrun as ([] & w1 & Hy & Hrest).
  apply elem_of_cons in Hx as [->|Hx].
  - assert (Q w1) as HQ by eauto.
    assert (steps (λ a b, Q a → Q b) (forM_ l body)) as Hsteps.
    { apply steps_forM_.
      - split; [by intros ?|]. intros a b c Hab Hbc Ha. auto.
      - intros z _ w0. apply Hkeep. }
    specialize (Hsteps w1 HQ). by rewrite Hrest in Hsteps.
  - apply (IH Hx w1); [done|]. specialize (Hinv y w HI). by rewrite Hy in Hinv.
Qed.

Lemma extract_tgz_Ok E tgz w w' :
  _extract_tgz E tgz w = (Ok tt, w') →
  ∃ content members,
    node_at (fs w) tgz = Some (File content) ∧
    gzip_tar_decode E content = inr members ∧
    forM_ members (extract_one E (parent tgz)) w = (Ok tt, w').
Proof.
  unfold _extract_tgz, tarfile_open, open_rb.
  intros (members & w1 & Hopen & Hloop)%bind_Ok_inv.
  apply bind_Ok_inv in Hopen as (content & w2 & Hread & Hdec).
  apply bind_Ok_inv in Hread as (m & w3 & [= <- <-] & Hread).
  destruct (node_at (fs w) tgz) as [[c| | |]|] eqn:Hf; try done.
  injection Hread as <- <-.
  destruct (gzip_tar_decode E c) as [e|ms] eqn:Hd; [done|].
  injection Hdec as <- <-. exists c, ms. split; [done|]. split; [done|].
  exact Hloop.
Qed.

(** After a successful extraction of an archive with a member below
    [target], [target] is a directory. *)
Lemma extract_tgz_makes_dir E tgz w w' content members m (target : path) :
  fs_wf (fs w) →
  _extract_tgz E tgz w = (Ok tt, w') →
  node_at (fs w) tgz = Some (File content) →
  gzip_tar_decode E content = inr members → m ∈ members →
  target `prefix_of` extract_target E (parent tgz) m →
  extract_target E (parent tgz) m ≠ target →
  is_dir (fs w') target = true.
Proof.
  intros Hwf Hrun Hf Hdec Hm Hpre Hne.
  apply extract_tgz_Ok in Hrun as (c & ms & Hf' & Hdec' & Hloop).
  assert (c = content) as -> by congruence.
  assert (ms = members) as -> by congruence.
  apply (forM_Ok_elem (λ w0, fs_wf (fs w0))
           (λ w0, is_dir (fs w0) target = true) _ _ m _ _ Hloop);
    [done|done|..].
  - intros y w1 Hw1. by apply (steps_extract_one E (parent tgz) y w1).
  - intros w1 w2 Hw1 Hone.
    assert (fs_wf (fs w2)) as Hw2.
    { pose proof (steps_extract_one E (parent tgz) m w1) as (_ & _ & Hk).
      rewrite Hone in Hk. by apply Hk. }
    apply extract_one_creates in Hone.
    apply (fs_wf_ancestors _ _ (extract_target E (parent tgz) m)); done.
  - intros y w1 Hw1. by apply (steps_extract_one E (parent tgz) y w1).
Qed.





(** A first call on a fresh machine with an archive of Monaco's layout:
    the archive is gone, [package/] is there, one request was sent; a
    second call sends none. *)
Example get_path_first_and_second_call :
  let E := Scenario.good_env in
  let first := get_path E Scenario.fresh in
  let second := get_path E first.2 in
  first.1 = Ok (Scenario.assets // "package") ∧
  is_dir (fs first.2) (Scenario.assets // "package") = true ∧
  node_at (fs first.2) (archive_file E) = None ∧
  length (requests first.2) = 1 ∧
  second.1 = Ok (Scenario.assets // "package") ∧
  length (requests second.2) = 1.
Proof. split_and!; vm_compute; reflexivity. Qed.

(** * Further properties of the module *)

(** ** [_download_file] *)


(** X2.  When the server answers and [filename] can be opened for writing
    (its parent is a directory and it is not one itself), the file ends up
    holding exactly the bytes the response delivered, replacing whatever was
    there; if the transfer is interrupted the error is raised and those
    bytes stay on disk: [_download_file] does not clean up after itself. *)
Theorem download_file_content (E : Env) (url : string) (filename : path)
    (w : world) (r : response) :
  network E url = inr r →
  is_dir (fs w) (parent filename) = true →
  node_at (fs w) filename ≠ Some Dir →
  (_download_file E url filename w).1
  = match fault r with Some e => Raise e | None => Ok tt end ∧
  node_at (fs (_download_file E url filename w).2) filename
  = Some (File (body r)).
Proof.
  intros Hnet Hpar Hfile. rewrite (download_run E url filename w r) by done.
  split; [done|]. cbn [snd fs log_request set_fs].
  destruct filename as [|c f]; [done|]. simpl. apply lookup_insert_eq.
Qed.

Lemma download_file_content_witness :
  let E := Scenario.good_env in
  let w := Scenario.downloaded in
  let r := {| body := Scenario.tgz_bytes; fault := None |} in
  network E archive_url = inr r ∧
  is_dir (fs w) (parent (archive_file E)) = true ∧
  node_at (fs w) (archive_file E) ≠ Some Dir ∧
  (_download_file E archive_url (archive_file E) w).1
  = match fault r with Some e => Raise e | None => Ok tt end ∧
  node_at (fs (_download_file E archive_url (archive_file E) w).2)
    (archive_file E)
  = Some (File (body r)).
Proof.
  intros E w r.
  assert (network E archive_url = inr r) as Hnet by reflexivity.
  assert (is_dir (fs w) (parent (archive_file E)) = true) as Hpar
    by (vm_compute; reflexivity).
  assert (node_at (fs w) (archive_file E) ≠ Some Dir) as Hfile
    by (vm_compute; discriminate).
  exact (conj Hnet (conj Hpar (conj Hfile
    (download_file_content E archive_url (archive_file E) w r Hnet Hpar Hfile)))).
Defined.

(** X3.  When the server answers but [filename] cannot be opened for
    writing (it is a directory, or its parent is not one), the call raises
    the [OSError] of [open] and writes nothing; the request has been sent
    all the same. *)
Theorem download_file_unwritable (E : Env) (url : string) (filename : path)
    (w : world) (r : response) :
  network E url = inr r →
  node_at (fs w) filename = Some Dir ∨ is_dir (fs w) (parent filename) = false →
  ∃ e, _download_file E url filename w = (Raise e, log_request url w) ∧
       is_OSError (exn_cls e) = true.
Proof.
  intros Hnet Hbad. unfold _download_file, urlopen, open_wb. run.
  rewrite Hnet. cbn [fs log_request]. unfold open_wb_fs.
  destruct Hbad as [Hd|Hpar].
  - rewrite Hd. by eexists.
  - unfold is_dir in Hpar.
    destruct (node_at (fs w) filename) as [[]|];
      destruct (node_at (fs w) (parent filename)) as [[]|];
      try done; by eexists.
Qed.

Lemma download_file_unwritable_witness :
  let E := Scenario.good_env in
  let w := Scenario.fresh in
  let r := {| body := Scenario.tgz_bytes; fault := None |} in
  network E archive_url = inr r ∧
  (node_at (fs w) (archive_file E) = Some Dir ∨
   is_dir (fs w) (parent (archive_file E)) = false) ∧
  ∃ e, _download_file E archive_url (archive_file E) w
       = (Raise e, log_request archive_url w) ∧
       is_OSError (exn_cls e) = true.
Proof.
  intros E w r.
  assert (network E archive_url = inr r) as Hnet by reflexivity.
  assert (node_at (fs w) (archive_file E) = Some Dir ∨
          is_dir (fs w) (parent (archive_file E)) = false) as Hbad
    by (right; vm_compute; reflexivity).
  exact (conj Hnet (conj Hbad
    (download_file_unwritable E archive_url (archive_file E) w r Hnet Hbad))).
Defined.

(** ** [_download_file] and [_verify_file_hash] together *)

(** X4.  After a download that returned normally, verifying the file
    checks the digest of exactly the bytes the server delivered, and the
    transfer was complete. *)
Theorem download_then_verify (E : Env) (url : string) (filename : path)
    (expected : string) (w : world) :
  (_download_file E url filename w).1 = Ok tt →
  ∃ r, network E url = inr r ∧ fault r = None ∧
       let w1 := (_download_file E url filename w).2 in
       _verify_file_hash E filename expected w1
       = (Ok (bool_decide (hexdigest_of (sha1 E) (body r) = expected)), w1).
Proof.
  intros Hok.
  destruct (_download_file E url filename w) as [res w1] eqn:Hrun.
  simpl in Hok. subst res.
  apply download_Ok in Hrun as (r & Hnet & Hfault & Hfs & _ & Hfile).
  exists r. split; [done|]. split; [done|]. cbn zeta. simpl.
  apply verify_file_hash_run.
  destruct filename as [|c f]; [done|]. simpl. rewrite Hfs.
  apply lookup_insert_eq.
Qed.

Lemma download_then_verify_witness :
  let E := Scenario.mismatch_env in
  let w := Scenario.empty_package in
  let expected := "4eb3e04d73c37b37ace42afaa8b07651245be3eb" in
  (_download_file E archive_url (archive_file E) w).1 = Ok tt ∧
  ∃ r, network E archive_url = inr r ∧ fault r = None ∧
       let w1 := (_download_file E archive_url (archive_file E) w).2 in
       _verify_file_hash E (archive_file E) expected w1
       = (Ok (bool_decide (hexdigest_of (sha1 E) (body r) = expected)), w1).
Proof.
  intros E w expected.
  assert ((_download_file E archive_url (archive_file E) w).1 = Ok tt) as Hok
    by (vm_compute; reflexivity).
  exact (conj Hok
    (download_then_verify E archive_url (archive_file E) expected w Hok)).
Defined.

(** ** [_verify_file_hash] on paths that are not files *)


(** ** [_extract_tgz] *)

Lemma extract_tgz_unfold (E : Env) (tgz : path) :
  _extract_tgz E tgz
  = (let* tar := tarfile_open E tgz in forM_ tar (extract_one E (parent tgz))).
Proof. reflexivity. Qed.

Lemma tarfile_open_run (E : Env) (tgz : path) (w : world) content :
  node_at (fs w) tgz = Some (File content) →
  tarfile_open E tgz w
  = (match gzip_tar_decode E content with
     | inl e => Raise e
     | inr members => Ok members
     end, w).
Proof.
  intros Hf. unfold tarfile_open, open_rb. run. rewrite Hf.
  by destruct (gzip_tar_decode E content).
Qed.

Lemma forM_app {A} (l1 l2 : list A) (body : A → M unit) w :
  forM_ (l1 ++ l2) body w
  = match forM_ l1 body w with
    | (Ok _, w1) => forM_ l2 body w1
    | (Raise e, w1) => (Raise e, w1)
    end.
Proof.
  revert w. induction l1 as [|x l1 IH]; intros w; [done|].
  simpl. unfold bind. destruct (body x w) as [[[]|e] w1]; [apply IH|done].
Qed.


(** X7.  Under the filter, extraction stops at the first member the filter
    rejects and is not rolled back: the call raises that member's
    [FilterError], the members after it are never looked at, and the world
    is the one the members before it left. *)
Theorem extract_tgz_stops_at_rejected (E : Env) (tgz : path) (w : world)
    (content : bytes) (pre post : list TarInfo) (bad : TarInfo) (e : exn) :
  extract_has_filter E = true →
  node_at (fs w) tgz = Some (File content) →
  gzip_tar_decode E content = inr (pre ++ bad :: post) →
  (forM_ pre (extract_one E (parent tgz)) w).1 = Ok tt →
  data_filter bad (parent tgz) = inl e →
  _extract_tgz E tgz w
  = (Raise e, (forM_ pre (extract_one E (parent tgz)) w).2).
Proof.
  intros Hfilter Hf Hdec Hpre Hbad.
  rewrite extract_tgz_unfold. unfold bind.
  rewrite (tarfile_open_run E tgz w content Hf), Hdec, forM_app.
  destruct (forM_ pre (extract_one E (parent tgz)) w) as [[[]|e'] w1];
    [|done].
  simpl. unfold bind, extract_one. rewrite Hfilter.
  by rewrite (TarFile_extract_rejected bad (parent tgz) e w1 Hbad).
Qed.

Lemma extract_tgz_stops_at_rejected_witness :
  let E := Scenario.traversal_env true in
  let w := Scenario.downloaded in
  let tgz := archive_file E in
  let e := filter_error OutsideDestinationError Scenario.evil in
  extract_has_filter E = true ∧
  node_at (fs w) tgz = Some (File Scenario.tgz_bytes) ∧
  gzip_tar_decode E Scenario.tgz_bytes
  = inr ([Scenario.loader_js] ++ Scenario.evil :: []) ∧
  (forM_ [Scenario.loader_js] (extract_one E (parent tgz)) w).1 = Ok tt ∧
  data_filter Scenario.evil (parent tgz) = inl e ∧
  _extract_tgz E tgz w
  = (Raise e, (forM_ [Scenario.loader_js] (extract_one E (parent tgz)) w).2).
Proof.
  intros E w tgz e.
  assert (node_at (fs w) tgz = Some (File Scenario.tgz_bytes)) as Hf
    by (vm_compute; reflexivity).
  assert (gzip_tar_decode E Scenario.tgz_bytes
          = inr ([Scenario.loader_js] ++ Scenario.evil :: [])) as Hdec
    by reflexivity.
  assert ((forM_ [Scenario.loader_js] (extract_one E (parent tgz)) w).1 = Ok tt)
    as Hpre by (vm_compute; reflexivity).
  assert (data_filter Scenario.evil (parent tgz) = inl e) as Hbad
    by (vm_compute; reflexivity).
  exact (conj eq_refl (conj Hf (conj Hdec (conj Hpre (conj Hbad
    (extract_tgz_stops_at_rejected E tgz w Scenario.tgz_bytes
       [Scenario.loader_js] [] Scenario.evil e eq_refl Hf Hdec Hpre Hbad)))))).
Defined.

(** Nothing that is there goes away. *)
Definition present_rel (w w' : world) : Prop :=
  ∀ q, is_Some (node_at (fs w) q) → is_Some (node_at (fs w') q).

Global Instance present_rel_preorder : PreOrder present_rel.
Proof. split; [by intros w q|]. intros w1 w2 w3 H1 H2 q Hq. auto. Qed.

Lemma present_insert m (p q : path) n :
  is_Some (node_at m q) → is_Some (node_at (<[p:=n]> m) q).
Proof.
  destruct q as [|c q]; [done|]. simpl.
  destruct (decide (p = c :: q)) as [->|Hne].
  - rewrite lookup_insert_eq. by eexists.
  - by rewrite lookup_insert_ne.
Qed.

Lemma steps_present_os_mkdir p : steps present_rel (os_mkdir p).
Proof.
  apply steps_fs_op; [apply _|]. intros w m' (_ & _ & ->)%mkdir_fs_inr q.
  apply present_insert.
Qed.

Lemma steps_present_mknode p n : steps present_rel (fs_op (mknode_fs p n)).
Proof.
  apply steps_fs_op; [apply _|]. intros w m' (_ & _ & ->)%mknode_fs_inr q.
  apply present_insert.
Qed.

Lemma steps_present_open_wb p : steps present_rel (open_wb p).
Proof.
  apply steps_fs_op; [apply _|]. intros w m' (_ & _ & ->)%open_wb_fs_inr q.
  apply present_insert.
Qed.

Lemma steps_present_file_write p d : steps present_rel (file_write p d).
Proof.
  apply steps_fs_op; [apply _|]. intros w m' (_ & ->)%write_fs_inr q.
  apply present_insert.
Qed.

Lemma steps_present_makedirs p : steps present_rel (os_makedirs p).
Proof.
  unfold os_makedirs. induction (rev p) as [|c rp IH]; cbn [os_makedirs_rev].
  - apply steps_present_os_mkdir.
  - apply steps_bind; [apply _|..]; [|intros _; apply steps_present_os_mkdir].
    apply steps_bind; [apply _|apply steps_Path_exists; apply _|].
    intros [|]; simpl; [apply steps_ret; apply _|].
    apply steps_try_catch; [apply _|done|]. intros; apply steps_ret; apply _.
Qed.

(** A member that is extracted successfully removes nothing. *)
Lemma extract_member_keeps_present member t w w' :
  extract_member member t w = (Ok tt, w') → present_rel w w'.
Proof.
  unfold extract_member. intros ([] & w1 & Hup & H)%bind_Ok_inv.
  assert (present_rel w w1) as H1.
  { assert (steps present_rel
              (let* ex := Path_exists (parent t) in
               if negb ex then os_makedirs (parent t) else ret tt)) as Hs.
    { apply steps_bind; [apply _|apply steps_Path_exists; apply _|].
      intros [|]; simpl; [apply steps_ret; apply _|apply steps_present_makedirs]. }
    specialize (Hs w). by rewrite Hup in Hs. }
  etrans; [exact H1|]. clear Hup H1.
  assert (∀ (c : M unit), steps present_rel c → c w1 = (Ok tt, w') →
                          present_rel w1 w') as Huse.
  { intros c Hs Hc. specialize (Hs w1). by rewrite Hc in Hs. }
  destruct (type member).
  - apply (Huse _ (steps_bind _ _ _ (steps_present_open_wb t)
                     (λ _, steps_present_file_write t (data member))) H).
  - refine (Huse _ _ H). apply steps_try_catch; [apply _|..].
    + apply steps_present_os_mkdir.
    + intros e. apply steps_bind; [apply _|apply steps_Path_is_dir; apply _|].
      intros [|]; simpl; [apply steps_ret|apply steps_raise]; apply _.
  - apply bind_Ok_inv in H as ([] & w2 & Hunl & Hmk).
    apply fs_op_Ok in Hmk as (m' & (_ & _ & ->)%mknode_fs_inr & ->).
    unfold os_path_lexists in Hunl. revert Hunl. run.
    intros Hunl q Hq. cbn [fs set_fs].
    destruct q as [|c q]; [done|]. simpl in *.
    destruct (decide (t = c :: q)) as [->|Hne];
      [rewrite lookup_insert_eq; by eexists|].
    rewrite lookup_insert_ne by done.
    destruct (bool_decide _).
    + apply fs_op_Ok in Hunl as (m' & (_ & _ & ->)%unlink_fs_inr & ->).
      simpl. by rewrite lookup_delete_ne.
    + unfold ret in Hunl. by injection Hunl as <-.
  - apply (Huse _ (steps_present_mknode t _) H).
  - apply (Huse _ (steps_present_mknode t _) H).
  - apply (Huse _ (steps_present_mknode t _) H).
Qed.

Lemma extract_one_keeps_present E dest m w w' :
  extract_one E dest m w = (Ok tt, w') → present_rel w w'.
Proof.
  unfold extract_one, TarFile_extract. destruct (extract_has_filter E).
  - intros (t & w1 & Ht & H)%bind_Ok_inv.
    destruct (data_filter m dest) as [e|t']; [done|]. injection Ht as -> ->.
    by eapply extract_member_keeps_present.
  - intros (t & w1 & [= <- <-] & H)%bind_Ok_inv.
    by eapply extract_member_keeps_present.
Qed.

Lemma forM_Ok_keeps {A} (R : relation world) `{!PreOrder R}
    (l : list A) body w w' :
  (∀ y w1 w2, body y w1 = (Ok tt, w2) → R w1 w2) →
  forM_ l body w = (Ok tt, w') → R w w'.
Proof.
  intros Hbody. revert w. induction l as [|x l IH]; intros w.
  - intros [= <-]. reflexivity.
  - simpl. intros ([] & w1 & Hx & Hrest)%bind_Ok_inv.
    etrans; [by eapply Hbody|by apply IH].
Qed.

(** X8.  With or without the filter, [_extract_tgz] sends no request,
    never removes or replaces a directory, and keeps the tree well-formed;
    and an extraction that succeeds removes nothing at all: every path that
    was there before is still there. *)
Theorem extract_tgz_keeps_tree (E : Env) (tgz : path) (w : world) :
  requests (_extract_tgz E tgz w).2 = requests w ∧
  (∀ q, is_dir (fs w) q = true → is_dir (fs (_extract_tgz E tgz w).2) q = true) ∧
  (fs_wf (fs w) → fs_wf (fs (_extract_tgz E tgz w).2)) ∧
  ((_extract_tgz E tgz w).1 = Ok tt →
   ∀ q, is_Some (node_at (fs w) q) →
        is_Some (node_at (fs (_extract_tgz E tgz w).2) q)).
Proof.
  split; [apply steps_extract_tgz_net|].
  destruct (steps_extract_tgz_grow E tgz w) as (_ & Hdirs & Hwf).
  split; [done|]. split; [done|].
  intros Hok. destruct (_extract_tgz E tgz w) as [res w'] eqn:Hrun.
  simpl in Hok. subst res. simpl.
  rewrite extract_tgz_unfold in Hrun.
  apply bind_Ok_inv in Hrun as (members & w1 & Hopen & Hloop).
  assert (w1 = w) as ->.
  { pose proof (steps_tarfile_open E eq tgz w) as Hpure.
    by rewrite Hopen in Hpure. }
  apply (forM_Ok_keeps present_rel members (extract_one E (parent tgz)) w w');
    [|done].
  intros y w1 w2. apply extract_one_keeps_present.
Qed.

(** ** [get_path] as a whole *)

Lemma provision_requests_any (E : Env) (w : world) :
  requests (try_except (provision_body E) (provision_handler E) w).2
  = match (Path_mkdir_parents (assets_dir E) w).1 with
    | Ok _ => requests w ++ [archive_url]
    | Raise _ => requests w
    end.
Proof.
  unfold try_except. rewrite provision_body_unfold. unfold bind at 1.
  pose proof (steps_net_mkdir_parents (assets_dir E) w) as Hmk.
  unfold net_rel in Hmk.
  destruct (Path_mkdir_parents (assets_dir E) w) as [[[]|e] w1]; simpl in *.
  - unfold bind at 1.
    pose proof (download_requests E archive_url (archive_file E) w1) as Hreq.
    destruct (_download_file E archive_url (archive_file E) w1) as [[[]|e] w2].
    + pose proof (steps_install_net E w2) as Hnet. unfold net_rel in Hnet.
      destruct (install E w2) as [[p|e] w3]; simpl in *.
      * congruence.
      * rewrite provision_handler_run. simpl. rewrite cleanup_requests.
        congruence.
    + rewrite provision_handler_run. simpl in *. rewrite cleanup_requests.
      congruence.
  - rewrite provision_handler_run. simpl. by rewrite cleanup_requests.
Qed.

(** X9.  [get_path] sends at most one request, and only to the registry
    URL of the pinned version: exactly one when the fast path is not taken
    and the version directory can be created, whatever happens afterwards,
    and none otherwise. *)
Theorem get_path_requests (E : Env) (w : world) :
  requests (get_path E w).2
  = match (cache_check E w).1, (Path_mkdir_parents (assets_dir E) w).1 with
    | Ok false, Ok _ => requests w ++ [archive_url]
    | _, _ => requests w
    end.
Proof.
  destruct (cache_check E w) as [[[|]|e] w0] eqn:Hcheck.
  - rewrite get_path_hit by (by rewrite Hcheck). done.
  - rewrite get_path_slow by (by rewrite Hcheck).
    rewrite provision_requests_any. simpl.
    by destruct (Path_mkdir_parents (assets_dir E) w) as [[[]|?] ?].
  - pose proof (cache_check_pure E w) as Hw. rewrite Hcheck in Hw.
    simpl in Hw. subst w0.
    assert (get_path E w = (Raise e, w)) as ->; [|done].
    unfold get_path, bind. by rewrite Hcheck.
Qed.

(** What a successful run of the [try] block went through. *)
Lemma provision_body_Ok_inv (E : Env) (w : world) a w' :
  provision_body E w = (Ok a, w') →
  ∃ w1 w2 w3 r,
    Path_mkdir_parents (assets_dir E) w = (Ok tt, w1) ∧
    _download_file E archive_url (archive_file E) w1 = (Ok tt, w2) ∧
    network E archive_url = inr r ∧ fault r = None ∧
    node_at (fs w2) (archive_file E) = Some (File (body r)) ∧
    hexdigest_of (sha1 E) (body r) = EXPECTED_SHA1 ∧
    _extract_tgz E (archive_file E) w2 = (Ok tt, w3) ∧
    Path_unlink (archive_file E) w3 = (Ok tt, w') ∧
    a = package_dir E.
Proof.
  intros Hbody. rewrite provision_body_unfold in Hbody.
  apply bind_Ok_inv in Hbody as ([] & w1 & Hmk & Hbody).
  apply bind_Ok_inv in Hbody as ([] & w2 & Hdl & Hinst).
  pose proof Hdl as Hdl'.
  apply download_Ok in Hdl' as (r & Hnet & Hfault & Hfs2 & _).
  assert (node_at (fs w2) (archive_file E) = Some (File (body r))) as Hfile.
  { rewrite node_at_lookup by apply child_not_root.
    rewrite Hfs2. apply lookup_insert_eq. }
  unfold install in Hinst.
  apply bind_Ok_inv in Hinst as (ok & w3 & Hver & Hinst).
  rewrite (verify_file_hash_run E _ _ _ (body r) Hfile) in Hver.
  injection Hver as <- <-.
  apply bind_Ok_inv in Hinst as ([] & w4 & Hok & Hinst).
  case_bool_decide as Hdigest; simpl in Hok; [|done].
  injection Hok as <-.
  apply bind_Ok_inv in Hinst as ([] & w5 & Hext & Hinst).
  apply bind_Ok_inv in Hinst as ([] & w6 & Hunl & Hret).
  injection Hret as <- <-.
  exists w1, w2, w5, r. done.
Qed.

Lemma get_path_Ok_slow (E : Env) (w : world) p :
  (cache_check E w).1 = Ok false → (get_path E w).1 = Ok p →
  provision_body E w = (Ok p, (get_path E w).2).
Proof.
  intros Hc. rewrite (get_path_slow E w Hc). unfold try_except.
  destruct (provision_body E w) as [[a|e] w'].
  - simpl. by intros [= <-].
  - by rewrite provision_handler_run.
Qed.

(** X10.  A call that returns after a download has checked the archive:
    the server answered, the transfer was complete, the bytes decoded as an
    archive, and their digest is the pinned one.  No unverified archive is
    ever reported as a success. *)
Theorem get_path_integrity_gate (E : Env) (w : world) (p : path) :
  (cache_check E w).1 = Ok false → (get_path E w).1 = Ok p →
  ∃ r members,
    network E archive_url = inr r ∧ fault r = None ∧
    hexdigest_of (sha1 E) (body r) = EXPECTED_SHA1 ∧
    gzip_tar_decode E (body r) = inr members.
Proof.
  intros Hc Hok.
  apply (get_path_Ok_slow E w p Hc) in Hok.
  apply provision_body_Ok_inv in Hok
    as (w1 & w2 & w3 & r & _ & _ & Hnet & Hfault & Hfile & Hdig & Hext & _).
  apply extract_tgz_Ok in Hext as (c & members & Hf & Hdec & _).
  assert (c = body r) as -> by congruence.
  by exists r, members.
Qed.

Lemma get_path_integrity_gate_witness :
  let E := Scenario.good_env in
  let w := Scenario.fresh in
  let p := package_dir E in
  (cache_check E w).1 = Ok false ∧ (get_path E w).1 = Ok p ∧
  ∃ r members,
    network E archive_url = inr r ∧ fault r = None ∧
    hexdigest_of (sha1 E) (body r) = EXPECTED_SHA1 ∧
    gzip_tar_decode E (body r) = inr members.
Proof.
  intros E w p.
  assert ((cache_check E w).1 = Ok false) as Hc by (vm_compute; reflexivity).
  assert ((get_path E w).1 = Ok p) as Hok by (vm_compute; reflexivity).
  exact (conj Hc (conj Hok (get_path_integrity_gate E w p Hc Hok))).
Defined.



(** A property established by one iteration of a successful loop and kept
    by every successful iteration holds at its end. *)
Lemma forM_Ok_elem_kept {A} (I Q : world → Prop) (l : list A) body x w w' :
  forM_ l body w = (Ok tt, w') → x ∈ l → I w →
  (∀ y w1, I w1 → I (body y w1).2) →
  (∀ w1 w2, I w1 → body x w1 = (Ok tt, w2) → Q w2) →
  (∀ y w1 w2, Q w1 → body y w1 = (Ok tt, w2) → Q w2) →
  Q w'.
Proof.
  intros Hrun Hx HI Hinv Hest Hkeep. revert w Hrun HI.
  induction l as [|y l IH]; intros w Hrun HI; [by apply elem_of_nil in Hx|].
  simpl in Hrun. apply bind_Ok_inv in Hrun as ([] & w1 & Hy & Hrest).
  apply elem_of_cons in Hx as [->|Hx].
  - assert (Q w1) as HQ by eauto. clear IH Hy HI. revert w1 HQ Hrest.
    induction l as [|z l IHl]; intros w1 HQ Hrest.
    + by injection Hrest as <-.
    + simpl in Hrest. apply bind_Ok_inv in Hrest as ([] & w2 & Hz & Hrest).
      apply (IHl w2); [by eapply Hkeep|done].
  - apply (IH Hx w1); [done|]. specialize (Hinv y w HI). by rewrite Hy in Hinv.
Qed.

(** After a successful extraction of an archive with a member strictly
    below [target], [target] has an entry. *)
Lemma extract_tgz_makes_entry E tgz w w' content members m (target : path) :
  fs_wf (fs w) →
  _extract_tgz E tgz w = (Ok tt, w') →
  node_at (fs w) tgz = Some (File content) →
  gzip_tar_decode E content = inr members → m ∈ members →
  target `prefix_of` extract_target E (parent tgz) m →
  extract_target E (parent tgz) m ≠ target →
  ∃ c, target // c `prefix_of` extract_target E (parent tgz) m ∧
       is_Some (fs w' !! (target // c)).
Proof.
  intros Hwf Hrun Hf Hdec Hm [k Hk] Hne.
  destruct k as [|c k]; [by rewrite app_nil_r in Hk|].
  assert (target // c `prefix_of` extract_target E (parent tgz) m) as Hchild.
  { exists k. rewrite Hk. unfold path_child. by rewrite <- app_assoc. }
  exists c. split; [done|].
  apply extract_tgz_Ok in Hrun as (c' & ms & Hf' & Hdec' & Hloop).
  assert (ms = members) as -> by congruence.
  rewrite <- (node_at_lookup (fs w') (target // c)) by apply child_not_root.
  apply (forM_Ok_elem_kept (λ w0, fs_wf (fs w0))
           (λ w0, is_Some (node_at (fs w0) (target // c)))
           members (extract_one E (parent tgz)) m w w' Hloop); [done|done|..].
  - intros y w1 Hw1. by apply (steps_extract_one E (parent tgz) y w1).
  - intros w1 w2 Hw1 Hone.
    assert (fs_wf (fs w2)) as Hw2.
    { pose proof (steps_extract_one E (parent tgz) m w1) as (_ & _ & Hkeep).
      rewrite Hone in Hkeep. by apply Hkeep. }
    apply extract_one_creates in Hone.
    destruct (decide (target // c = extract_target E (parent tgz) m))
      as [->|Hneq]; [done|].
    assert (is_dir (fs w2) (target // c) = true) as Hd
      by (by apply (fs_wf_ancestors _ _ (extract_target E (parent tgz) m))).
    apply is_dir_Some in Hd. by rewrite Hd.
  - intros y w1 w2 HQ Hone. by apply (extract_one_keeps_present _ _ _ _ _ Hone).
Qed.

(** X12.  [get_path] is idempotent.  After a call that returned, either on
    the fast path or after extracting an archive with a member below
    [package/], a second call returns the same path and changes nothing: no
    request, no write. *)
Theorem get_path_idempotent (E : Env) (w : world) (p : path) :
  fs_wf (fs w) → (get_path E w).1 = Ok p →
  ((cache_check E w).1 = Ok true ∨
   ∃ r members m,
     network E archive_url = inr r ∧
     gzip_tar_decode E (body r) = inr members ∧ m ∈ members ∧
     package_dir E `prefix_of` extract_target E (assets_dir E) m ∧
     extract_target E (assets_dir E) m ≠ package_dir E) →
  get_path E (get_path E w).2 = (Ok p, (get_path E w).2).
Proof.
  intros Hwf Hok Hcase.
  destruct (cache_check E w) as [[[|]|e] w0] eqn:Hcheck.
  - assert (get_path E w = (Ok (package_dir E), w)) as Hgp.
    { apply get_path_hit. by rewrite Hcheck. }
    rewrite Hgp in *. simpl in *. injection Hok as <-. done.
  - destruct Hcase as [?|(r & members & m & Hnet & Hdec & Hm & Hpre & Hne)];
      [done|].
    assert ((cache_check E w).1 = Ok false) as Hc by (by rewrite Hcheck).
    pose proof (get_path_Ok_slow E w p Hc Hok) as Hbody.
    destruct (get_path E w) as [res w'] eqn:Hrun. simpl in *. subst res.
    apply provision_body_Ok_inv in Hbody
      as (w1 & w2 & w3 & r' & Hmk & Hdl & Hnet' & _ & Hfile & _ & Hext
          & Hunl & ->).
    assert (r' = r) as -> by congruence.
    assert (fs_wf (fs w2)) as Hwf2.
    { pose proof (steps_Path_mkdir_parents (assets_dir E) w) as (_ & _ & H1).
      rewrite Hmk in H1.
      pose proof (steps_download E (λ _, True) archive_url (archive_file E) I w1)
        as (_ & _ & H2).
      rewrite Hdl in H2. auto. }
    rewrite <- (archive_file_parent E) in Hpre, Hne.
    pose proof (extract_tgz_makes_dir E _ _ _ _ _ m (package_dir E)
                  Hwf2 Hext Hfile Hdec Hm Hpre Hne) as Hdir3.
    destruct (extract_tgz_makes_entry E _ _ _ _ _ m (package_dir E)
                Hwf2 Hext Hfile Hdec Hm Hpre Hne) as (c & _ & [n Hentry]).
    apply fs_op_Ok in Hunl as (m' & (_ & Hnd & ->)%unlink_fs_inr & ->).
    apply get_path_hit. rewrite (cache_check_hit E _ c n); [done|..].
    + apply is_dir_Some. by apply delete_dirs.
    + cbn [fs set_fs]. rewrite lookup_delete_ne; [done|].
      intros Heq. apply (f_equal length) in Heq.
      unfold archive_file, package_dir, path_child in Heq.
      rewrite !length_app in Heq. simpl in Heq. lia.
  - pose proof (cache_check_pure E w) as Hw. rewrite Hcheck in Hw.
    assert (get_path E w = (Raise e, w0)) as Hgp.
    { unfold get_path, bind. by rewrite Hcheck. }
    by rewrite Hgp in Hok.
Qed.

Lemma get_path_idempotent_witness :
  let E := Scenario.good_env in
  let w := Scenario.fresh in
  let p := package_dir E in
  fs_wf (fs w) ∧ (get_path E w).1 = Ok p ∧
  ((cache_check E w).1 = Ok true ∨
   ∃ r members m,
     network E archive_url = inr r ∧
     gzip_tar_decode E (body r) = inr members ∧ m ∈ members ∧
     package_dir E `prefix_of` extract_target E (assets_dir E) m ∧
     extract_target E (assets_dir E) m ≠ package_dir E) ∧
  get_path E (get_path E w).2 = (Ok p, (get_path E w).2).
Proof.
  intros E w p.
  assert (fs_wf (fs w)) as Hwf by (apply fs_wfb_true; vm_compute; reflexivity).
  assert ((get_path E w).1 = Ok p) as Hok by (vm_compute; reflexivity).
  assert ((cache_check E w).1 = Ok true ∨
          ∃ r members m,
            network E archive_url = inr r ∧
            gzip_tar_decode E (body r) = inr members ∧ m ∈ members ∧
            package_dir E `prefix_of` extract_target E (assets_dir E) m ∧
            extract_target E (assets_dir E) m ≠ package_dir E) as Hcase.
  { right. exists {| body := Scenario.tgz_bytes; fault := None |},
      [Scenario.loader_js], Scenario.loader_js.
    split; [reflexivity|]. split; [reflexivity|].
    split; [apply list_elem_of_here|]. split.
    - exists ["min"; "vs"; "loader.js"]. vm_compute. reflexivity.
    - vm_compute. discriminate. }
  exact (conj Hwf (conj Hok (conj Hcase
    (get_path_idempotent E w p Hwf Hok Hcase)))).
Defined.

(** ** [clear_cache] and [get_path] *)

(** X13.  After [clear_cache] has removed a cache directory, the next
    [get_path] starts from scratch: the cache check answers no, the call
    goes through the [try] block, and, if the version directory can be
    created again, it sends a fresh request. *)
Theorem clear_cache_then_get_path (E : Env) (w : world) :
  is_dir (fs w) (CACHE_DIR E) = true →
  let w' := (clear_cache E w).2 in
  (clear_cache E w).1 = Ok tt ∧
  (cache_check E w').1 = Ok false ∧
  get_path E w' = try_except (provision_body E) (provision_handler E) w' ∧
  ((Path_mkdir_parents (assets_dir E) w').1 = Ok tt →
   requests (get_path E w').2 = requests w ++ [archive_url]).
Proof.
  intros Hd w'.
  pose proof (user_cache_dir_not_root E "monaco-assets" "monaco-assets") as Hroot.
  fold (CACHE_DIR E) in Hroot.
  assert (clear_cache E w
          = (Ok tt, set_fs w (remove_tree (CACHE_DIR E) (fs w)))) as Hrun.
  { unfold clear_cache, Path_exists, exists_at. run.
    apply is_dir_Some in Hd. rewrite Hd. by apply rmtree_dir. }
  subst w'. rewrite Hrun. simpl. split; [done|].
  set (w' := set_fs w (remove_tree (CACHE_DIR E) (fs w))).
  assert (node_at (fs w') (package_dir E) = None) as Hpkg.
  { rewrite node_at_lookup by apply child_not_root.
    apply lookup_remove_tree_under.
    unfold package_dir, assets_dir, path_child. rewrite <- app_assoc.
    by eexists. }
  assert ((cache_check E w').1 = Ok false) as Hc
    by (by rewrite (cache_check_absent E w' Hpkg)).
  split; [done|]. split; [by apply get_path_slow|].
  intros Hmk. rewrite (get_path_slow E w' Hc), provision_requests_any.
  by destruct (Path_mkdir_parents (assets_dir E) w') as [[[]|?] ?].
Qed.

Lemma clear_cache_then_get_path_witness :
  let E := Scenario.good_env in
  let w := Scenario.populated in
  is_dir (fs w) (CACHE_DIR E) = true ∧
  let w' := (clear_cache E w).2 in
  (clear_cache E w).1 = Ok tt ∧
  (cache_check E w').1 = Ok false ∧
  get_path E w' = try_except (provision_body E) (provision_handler E) w' ∧
  ((Path_mkdir_parents (assets_dir E) w').1 = Ok tt →
   requests (get_path E w').2 = requests w ++ [archive_url]).
Proof.
  intros E w.
  assert (is_dir (fs w) (CACHE_DIR E) = true) as Hd by (vm_compute; reflexivity).
  exact (conj Hd (clear_cache_then_get_path E w Hd)).
Defined.

(** ** What [get_path] and [clear_cache] keep *)

Lemma steps_rmtree_wf p ignore_errors :
  steps wf_rel (shutil_rmtree p ignore_errors).
Proof.
  unfold shutil_rmtree. apply steps_bind; [apply _|apply steps_get_fs; apply _|].
  intros m.
  assert (steps wf_rel (fs_op (λ m0, inr (remove_tree p m0)))) as Hrm.
  { apply steps_fs_op; [apply _|]. intros w m' [= <-] Hwf.
    by apply remove_tree_wf. }
  destruct (node_at m p) as [[]|]; destruct ignore_errors, p;
    repeat first [ apply steps_bind | apply steps_ret | apply steps_raise
                 | exact Hrm | intros _ | apply _ ].
Qed.

(** X14.  Both operations keep the tree well-formed: after [get_path] and
    after [clear_cache], whatever their outcome, every node still sits in a
    directory. *)
Theorem module_keeps_tree_well_formed (E : Env) (w : world) :
  fs_wf (fs w) →
  fs_wf (fs (get_path E w).2) ∧ fs_wf (fs (clear_cache E w).2).
Proof.
  intros Hwf. split.
  - unfold get_path, bind. rewrite cache_check_run.
    assert (fs_wf (fs (try_except (provision_body E) (provision_handler E) w).2))
      as Hslow.
    { unfold try_except.
      destruct (steps_provision_body_grow E w) as (_ & _ & Hwf1).
      destruct (provision_body E w) as [[a|e] w1]; simpl in Hwf1; [auto|].
      rewrite provision_handler_run. simpl. unfold cleanup.
      destruct (is_dir _ _); [|auto]. simpl. apply remove_tree_wf. auto. }
    destruct (node_at (fs w) (package_dir E)) as [[]|]; try done.
    by destruct (any_path _).
  - unfold clear_cache. apply (steps_bind wf_rel); [|..|done].
    + apply steps_Path_exists. apply _.
    + intros [|]; [apply steps_rmtree_wf|apply steps_ret; apply _].
Qed.

Lemma module_keeps_tree_well_formed_witness :
  let E := Scenario.traversal_env false in
  let w := Scenario.fresh in
  fs_wf (fs w) ∧
  fs_wf (fs (get_path E w).2) ∧ fs_wf (fs (clear_cache E w).2).
Proof.
  intros E w.
  assert (fs_wf (fs w)) as Hwf by (apply fs_wfb_true; vm_compute; reflexivity).
  exact (conj Hwf (module_keeps_tree_well_formed E w Hwf)).
Defined.

(** ** The footprint of [get_path] *)

(** Nothing that exists is changed; what is new is a directory on the way
    to [p]. *)
Definition made_rel (p : path) (w w' : world) : Prop :=
  ∀ q, fs w' !! q = fs w !! q ∨
       (fs w !! q = None ∧ fs w' !! q = Some Dir ∧ q `prefix_of` p).

Global Instance made_rel_preorder p : PreOrder (made_rel p).
Proof.
  split; [by intros w q; left|].
  intros w1 w2 w3 H12 H23 q.
  destruct (H12 q) as [E12|(N1 & D2 & Hq)], (H23 q) as [E23|(N2 & D3 & Hq')].
  - left. congruence.
  - right. split_and!; [congruence|done..].
  - right. split_and!; [done|congruence|done].
  - congruence.
Qed.










(** ** The errors of [get_path] *)


